(** * DocuSense web client: upload/status poller, dashboards, document
      list, chat and sidebar

    A shallow embedding of the client-side logic of the repository:

    - [FileUpload] (second half of src/frontend/components/Login.tsx) and
      [GlobalDocumentUpload] (src/unnamed/part_001): [handleFileUpload],
      [pollProcessingStatus], [handleDrop], and the two components inside
      the dashboards that render them;
    - [EmployeeDashboard] (src/frontend/components/EmployeeDashboard.tsx):
      [loadInitialData], [loadSession], [createNewChat], [sendMessage],
      [deleteSession], [loadSessions], [loadDocuments];
    - [DocumentList] (src/frontend/components/DocumentList.tsx):
      [handleDelete], [getFileIcon], [getDocumentTypeColor];
    - [Sidebar] (src/unnamed/part_002): [filteredSessions];
    - [ChatInterface] (src/frontend/components/LoadingSpinner.tsx):
      [handleSubmit], [handleKeyDown], the source cards;
    - [AdminDashboard] (src/unnamed/part_003): [loadDashboardData],
      [handleDeleteDocument], [filteredDocuments];
    - [Login] (src/frontend/components/Login.tsx): [handleInputChange],
      [handleSubmit].

    React state is modelled by explicit state passing.  Every [async]
    function is cut at its [await]s: the part before the [await] and the
    part resumed with the awaited result are separate functions, and the
    state the resumed part sees is the state at that later time, since
    the code always updates state through functional updaters
    ([setX(prev => ...)]); what a handler read before its [await] (its
    closure) is passed to the resumed part.  Time is counted in
    milliseconds, as by [Date.now()] and [setTimeout]. *)

From Stdlib Require Import String Ascii List NArith ZArith Lia Bool.
From stdpp Require Import base option gmap strings list fin_maps pretty.

Set Default Proof Using "Type".

(** ** Data model *)

(** [status: 'uploading' | 'processing' | 'ready' | 'error'] *)
Inductive Status := uploading | processing | ready | error.

Global Instance Status_eq_dec : EqDecision Status.
Proof. solve_decision. Defined.

(** The two upload components share their code up to the messages and the
    [filename] field which only the global one keeps. *)
Inductive Component := FileUpload | GlobalDocumentUpload.

(** *** JavaScript values

    What a place holds whose content the TypeScript types do not settle:
    [error.response?.data?.detail] comes from [error: any], so it is
    [undefined] or whatever JSON value the server sent.  A number is given
    by numerator and denominator; [JsArray] and [JsObject] hold the JSON
    text of an array and of an object. *)
Inductive JsValue :=
| JsUndefined
| JsNull
| JsBoolean (b : bool)
| JsNumber (numerator : Z) (denominator : positive)
| JsString (s : string)
| JsArray (json : string)
| JsObject (json : string).

(** A string where a value is expected is that string. *)
Coercion JsString : string >-> JsValue.

(** [ToBoolean]: [undefined], [null], [false], [0] and the empty string
    are falsy; every array and object is truthy. *)
Definition toBoolean (v : JsValue) : bool :=
  match v with
  | JsUndefined | JsNull => false
  | JsBoolean b => b
  | JsNumber n _ => negb (n =? 0)%Z
  | JsString s => negb (bool_decide (s = EmptyString))
  | JsArray _ | JsObject _ => true
  end.

Section UploadPoller.

(** The shape of [metadata] is declared in [types/api], which the
    components only pass along. *)
Context {Metadata : Type}.

(** [ProcessingStatus] (FileUpload) and [UploadStatus]
    (GlobalDocumentUpload).  [document_id] is a plain string in the
    TypeScript type; it is optional here because spreading a missing entry
    ([...prev[fileId]] with [prev[fileId]] undefined) yields an object
    without it.  [message] is declared a string, but the [catch] of
    [handleFileUpload] stores the untyped [detail] of the error in it. *)
Record ProcessingStatus := mkStatus {
  document_id : option string;
  status : Status;
  message : JsValue;
  filename : option string;
  metadata : option Metadata
}.

(** [useState<{[key: string]: ProcessingStatus}>({})] *)
#[local] Abbreviation UploadingFiles := (gmap string ProcessingStatus).

(** [{document_id, message}] returned by [uploadDocument]. *)
Record UploadResponse := mkUploadResponse {
  up_document_id : string;
  up_message : string
}.

(** Outcome of [await apiService.uploadDocument(file)]: the response, or
    an exception, of which the [catch] reads
    [error.response?.data?.detail]. *)
Inductive UploadResult :=
| UploadOk (r : UploadResponse)
| UploadRejected (detail : JsValue).

(** Outcome of [await apiService.getProcessingStatus(documentId)]. *)
Inductive FetchResult :=
| FetchOk (s : ProcessingStatus)
| FetchThrow.

(** *** Constants *)

Definition maxAttempts : nat := 60.
(** [setTimeout(poll, 2000)] and [setTimeout(..., 3000)], in milliseconds. *)
Definition pollDelay : N := 2000.
Definition graceDelay : N := 3000.

Definition msgUploading (c : Component) : string :=
  match c with
  | FileUpload => "Téléchargement sécurisé en cours..."
  | GlobalDocumentUpload => "Téléchargement sécurisé vers la base globale..."
  end.

Definition msgUploadFailed (c : Component) : string :=
  match c with
  | FileUpload => "Erreur lors du téléchargement sécurisé"
  | GlobalDocumentUpload => "Erreur lors du téléchargement global"
  end.

Definition msgTimeout (c : Component) : string :=
  match c with
  | FileUpload => "Timeout: Le traitement sécurisé prend trop de temps"
  | GlobalDocumentUpload => "Timeout: Le traitement global prend trop de temps"
  end.

Definition msgPollingFailed (c : Component) : string :=
  match c with
  | FileUpload => "Erreur de communication sécurisée avec le serveur"
  | GlobalDocumentUpload => "Erreur de communication avec le serveur global"
  end.

(** [filename: file.name] is written by the global component only. *)
Definition keptFilename (c : Component) (name : string) : option string :=
  match c with
  | FileUpload => None
  | GlobalDocumentUpload => Some name
  end.

(** *** The objects written into the mapping *)

(** [`${file.name}-${Date.now()}`] *)
Definition makeFileId (name : string) (now : N) : string :=
  name +:+ "-" +:+ pretty now.

Definition uploadingEntry (c : Component) (fileId name : string)
  : ProcessingStatus :=
  {| document_id := Some fileId; status := uploading;
     message := msgUploading c; filename := keptFilename c name;
     metadata := None |}.

Definition processingEntry (c : Component) (r : UploadResponse)
    (name : string) : ProcessingStatus :=
  {| document_id := Some (up_document_id r); status := processing;
     message := up_message r; filename := keptFilename c name;
     metadata := None |}.

(** [error.response?.data?.detail || fallback]: the detail itself when it
    is truthy, whatever it is, and the fallback otherwise. *)
Definition detailOr (detail : JsValue) (fallback : string) : JsValue :=
  if toBoolean detail then detail else JsString fallback.

Definition uploadErrorEntry (c : Component) (fileId name : string)
    (detail : JsValue) : ProcessingStatus :=
  {| document_id := Some fileId; status := error;
     message := detailOr detail (msgUploadFailed c);
     filename := keptFilename c name; metadata := None |}.

(** [status] (FileUpload) or [{...status, filename}] (global). *)
Definition fetchedEntry (c : Component) (s : ProcessingStatus)
    (name : string) : ProcessingStatus :=
  match c with
  | FileUpload => s
  | GlobalDocumentUpload =>
      {| document_id := document_id s; status := status s;
         message := message s; filename := Some name;
         metadata := metadata s |}
  end.

(** [{...old, status: 'error', message: msg}], [old] possibly undefined. *)
Definition spreadError (old : option ProcessingStatus) (msg : JsValue)
  : ProcessingStatus :=
  match old with
  | Some e =>
      {| document_id := document_id e; status := error; message := msg;
         filename := filename e; metadata := metadata e |}
  | None =>
      {| document_id := None; status := error; message := msg;
         filename := None; metadata := None |}
  end.

(** *** The updaters passed to [setUploadingFiles] *)

(** [prev => ({...prev, [fileId]: v})] *)
Definition setEntry (fileId : string) (v : ProcessingStatus)
    (prev : UploadingFiles) : UploadingFiles :=
  <[fileId := v]> prev.

(** [prev => ({...prev, [fileId]: {...prev[fileId], status: 'error', message}})] *)
Definition markError (fileId : string) (msg : JsValue)
    (prev : UploadingFiles) : UploadingFiles :=
  <[fileId := spreadError (prev !! fileId) msg]> prev.

(** [prev => { const newState = {...prev}; delete newState[fileId]; return newState; }] *)
Definition removeEntry (fileId : string) (prev : UploadingFiles)
  : UploadingFiles :=
  delete fileId prev.

(** *** One upload: the closure of a [handleFileUpload] call *)

(** Where the call stands: not started, suspended at one of its two
    [await]s, waiting for one of its two timers, or over. *)
Inductive Phase :=
| Idle | AwaitUpload | AwaitStatus | Sleeping | Grace | Stopped.

Global Instance Phase_eq_dec : EqDecision Phase.
Proof. solve_decision. Defined.

(** The variables captured by the closures of one upload.  [fetches]
    counts the calls of [getProcessingStatus] made so far; it is not a
    variable of the program. *)
Record Loop := mkLoop {
  phase : Phase;
  fileId : string;
  fileName : string;
  documentId : string;
  attempts : nat;
  due : N;
  fetches : nat
}.

Definition idle : Loop :=
  {| phase := Idle; fileId := ""; fileName := ""; documentId := "";
     attempts := 0; due := 0%N; fetches := 0 |}.

(** The component: its [uploadingFiles] state and the number of times the
    [onFileUploaded] / [onUploadSuccess] prop has been called. *)
Record Page := mkPage {
  uploadingFiles : UploadingFiles;
  notified : nat
}.

Definition setUploadingFiles (f : UploadingFiles -> UploadingFiles)
    (p : Page) : Page :=
  {| uploadingFiles := f (uploadingFiles p); notified := notified p |}.

(** A call of the callback prop, counted.  What the dashboards do when it
    is called is part of [hostStep] below. *)
Definition onFileUploaded (p : Page) : Page :=
  {| uploadingFiles := uploadingFiles p; notified := S (notified p) |}.

(** [handleFileUpload(file)] up to [await apiService.uploadDocument(file)];
    [now] is what [Date.now()] returns. *)
Definition handleFileUpload_call (c : Component) (name : string) (now : N)
    (l : Loop) (p : Page) : Loop * Page :=
  let id := makeFileId name now in
  ({| phase := AwaitUpload; fileId := id; fileName := name;
      documentId := documentId l; attempts := attempts l; due := due l;
      fetches := fetches l |},
   setUploadingFiles (setEntry id (uploadingEntry c id name)) p).

(** [poll()] up to [await apiService.getProcessingStatus(documentId)]. *)
Definition poll_call (l : Loop) : Loop :=
  {| phase := AwaitStatus; fileId := fileId l; fileName := fileName l;
     documentId := documentId l; attempts := attempts l; due := due l;
     fetches := S (fetches l) |}.

(** [handleFileUpload] resumed with the outcome of the upload: on success
    it writes the [processing] entry and calls [pollProcessingStatus],
    which sets [attempts = 0] and calls [poll()]; the [catch] writes the
    [error] entry. *)
Definition handleFileUpload_resume (c : Component) (r : UploadResult)
    (l : Loop) (p : Page) : Loop * Page :=
  match r with
  | UploadOk resp =>
      (poll_call
         {| phase := AwaitUpload; fileId := fileId l; fileName := fileName l;
            documentId := up_document_id resp; attempts := 0; due := due l;
            fetches := fetches l |},
       setUploadingFiles
         (setEntry (fileId l) (processingEntry c resp (fileName l))) p)
  | UploadRejected detail =>
      ({| phase := Stopped; fileId := fileId l; fileName := fileName l;
          documentId := documentId l; attempts := attempts l; due := due l;
          fetches := fetches l |},
       setUploadingFiles
         (setEntry (fileId l)
            (uploadErrorEntry c (fileId l) (fileName l) detail)) p)
  end.

Definition withPhase (ph : Phase) (a : nat) (d : N) (l : Loop) : Loop :=
  {| phase := ph; fileId := fileId l; fileName := fileName l;
     documentId := documentId l; attempts := a; due := d;
     fetches := fetches l |}.

(** [poll] resumed at time [now] with the outcome of the status fetch. *)
Definition poll_resume (c : Component) (now : N) (r : FetchResult)
    (l : Loop) (p : Page) : Loop * Page :=
  match r with
  | FetchOk s =>
      let p1 :=
        setUploadingFiles
          (setEntry (fileId l) (fetchedEntry c s (fileName l))) p in
      match status s with
      | ready => (withPhase Grace (attempts l) (now + graceDelay)%N l, p1)
      | error => (withPhase Stopped (attempts l) (due l) l, p1)
      | _ =>
          let attempts' := S (attempts l) in
          if attempts' <? maxAttempts
          then (withPhase Sleeping attempts' (now + pollDelay)%N l, p1)
          else (withPhase Stopped attempts' (due l) l,
                setUploadingFiles (markError (fileId l) (msgTimeout c)) p1)
      end
  | FetchThrow =>
      (withPhase Stopped (attempts l) (due l) l,
       setUploadingFiles (markError (fileId l) (msgPollingFailed c)) p)
  end.

(** The callback of [setTimeout(..., 3000)]. *)
Definition graceTimeout (l : Loop) (p : Page) : Loop * Page :=
  (withPhase Stopped (attempts l) (due l) l,
   onFileUploaded (setUploadingFiles (removeEntry (fileId l)) p)).

(** What can happen to one upload. *)
Inductive Event :=
| Dropped (name : string) (now : N)
| Uploaded (r : UploadResult)
| Polled (now : N) (r : FetchResult)
| Tick (now : N).

(** One event; [None] when the upload is not waiting for it (a timer
    does not fire before it is due). *)
Definition step (c : Component) (ev : Event) (l : Loop) (p : Page)
  : option (Loop * Page) :=
  match phase l, ev with
  | Idle, Dropped name now => Some (handleFileUpload_call c name now l p)
  | AwaitUpload, Uploaded r => Some (handleFileUpload_resume c r l p)
  | AwaitStatus, Polled now r => Some (poll_resume c now r l p)
  | Sleeping, Tick now =>
      if (due l <=? now)%N then Some (poll_call l, p) else None
  | Grace, Tick now =>
      if (due l <=? now)%N then Some (graceTimeout l p) else None
  | _, _ => None
  end.

(** A run: events the upload is not waiting for are skipped. *)
Fixpoint exec (c : Component) (evs : list Event) (l : Loop) (p : Page)
  : Loop * Page :=
  match evs with
  | [] => (l, p)
  | ev :: evs' =>
      match step c ev l p with
      | Some (l', p') => exec c evs' l' p'
      | None => exec c evs' l p
      end
  end.

(** The entry an upload shows, if any. *)
Definition entryOf (key : string) (p : Page) : option ProcessingStatus :=
  uploadingFiles p !! key.

(** Number of events of a run the upload reacted to. *)
Fixpoint reactions (c : Component) (evs : list Event) (l : Loop) (p : Page)
  : nat :=
  match evs with
  | [] => 0
  | ev :: evs' =>
      match step c ev l p with
      | Some (l', p') => S (reactions c evs' l' p')
      | None => reactions c evs' l p
      end
  end.

(** *** What the view shows of one upload *)

(** The view renders [status.status] of every entry after each update.
    [observe] appends the status of the entry to the statuses seen so far
    when it differs from the last one seen; a missing entry shows nothing. *)
Definition observe (seen : list Status) (e : option ProcessingStatus)
  : list Status :=
  match e with
  | None => seen
  | Some e =>
      if decide (last seen = Some (status e)) then seen
      else seen ++ [status e]
  end.

(** The statuses seen under [key] along a run. *)
Fixpoint watch (c : Component) (key : string) (evs : list Event)
    (l : Loop) (p : Page) (seen : list Status) : list Status :=
  match evs with
  | [] => seen
  | ev :: evs' =>
      match step c ev l p with
      | Some (l', p') => watch c key evs' l' p' (observe seen (entryOf key p'))
      | None => watch c key evs' l p seen
      end
  end.

(** *** Two uploads of one component

    [files.forEach(handleFileUpload)] starts one closure per file; all of
    them update the same [uploadingFiles] state. *)

Inductive Who := FileA | FileB.

Record Pair := mkPair {
  loopA : Loop;
  loopB : Loop;
  page : Page
}.

Definition step2 (c : Component) (w : Who) (ev : Event) (s : Pair)
  : option Pair :=
  match w with
  | FileA =>
      match step c ev (loopA s) (page s) with
      | Some (l', p') => Some {| loopA := l'; loopB := loopB s; page := p' |}
      | None => None
      end
  | FileB =>
      match step c ev (loopB s) (page s) with
      | Some (l', p') => Some {| loopA := loopA s; loopB := l'; page := p' |}
      | None => None
      end
  end.

Fixpoint exec2 (c : Component) (evs : list (Who * Event)) (s : Pair) : Pair :=
  match evs with
  | [] => s
  | (w, ev) :: evs' =>
      match step2 c w ev s with
      | Some s' => exec2 c evs' s'
      | None => exec2 c evs' s
      end
  end.

(** *** Invariants of a run

    Stated here, proved below. *)

(** How [fetches] and [attempts] go together in each phase. *)
Definition counted (l : Loop) : Prop :=
  match phase l with
  | Idle | AwaitUpload => fetches l = 0
  | AwaitStatus => fetches l = S (attempts l) /\ attempts l < maxAttempts
  | Sleeping => fetches l = attempts l /\ attempts l < maxAttempts
  | Grace | Stopped => fetches l <= maxAttempts
  end.

(** An upper bound on the events an upload can still react to. *)
Definition remaining (l : Loop) : nat :=
  match phase l with
  | Idle => 2 * maxAttempts + 4
  | AwaitUpload => 2 * maxAttempts + 3
  | AwaitStatus => 2 * (maxAttempts - attempts l) + 2
  | Sleeping => 2 * (maxAttempts - attempts l) + 3
  | Grace => 1
  | Stopped => 0
  end.

(** Between the drop and the end of the upload its entry is in the
    mapping. *)
Definition shown (l : Loop) (p : Page) : Prop :=
  match phase l with
  | Idle | Stopped => True
  | _ => is_Some (entryOf (fileId l) p)
  end.

(** The success callback has not run before the upload is over, and has
    run at most once then. *)
Definition notifiedOnce (n0 : nat) (l : Loop) (p : Page) : Prop :=
  match phase l with
  | Stopped => notified p = n0 \/ notified p = S n0
  | _ => notified p = n0
  end.

(** The server never reports [uploading], the status the client shows
    before the upload request has returned. *)
Definition serverStatus (ev : Event) : Prop :=
  match ev with
  | Polled _ (FetchOk s) => status s <> uploading
  | _ => True
  end.

(** The statuses seen so far, by phase. *)
Definition chain (l : Loop) (seen : list Status) : Prop :=
  match phase l with
  | Idle => seen = []
  | AwaitUpload => seen = [uploading]
  | AwaitStatus | Sleeping => seen = [uploading; processing]
  | Grace => seen = [uploading; processing; ready]
  | Stopped =>
      seen = [uploading; error] \/ seen = [uploading; processing; error] \/
      seen = [uploading; processing; ready]
  end.

(** Once [ready] or [error] has been seen the upload is in its grace
    period or over. *)
Definition settled (l : Loop) (seen : list Status) : Prop :=
  ready ∈ seen \/ error ∈ seen -> phase l = Grace \/ phase l = Stopped.

(** *** Concrete runs *)

Definition okStatus (st : Status) (msg : string) : FetchResult :=
  FetchOk {| document_id := Some "doc123"; status := st; message := msg;
             filename := None; metadata := None |}.

Definition noPage : Page := {| uploadingFiles := ∅; notified := 0 |}.

Definition accepted : UploadResult :=
  UploadOk {| up_document_id := "doc123"; up_message := "recu" |}.

(** The example of the specification: "policy.pdf", two polls, [ready]. *)
Definition policyRun : list Event :=
  [ Dropped "policy.pdf" 1000; Uploaded accepted;
    Polled 1500 (okStatus processing "en cours"); Tick 3500;
    Polled 3600 (okStatus ready "pret") ].

(** [n] polls answered [processing], each followed by its timer. *)
Fixpoint stillProcessing (n : nat) (now : N) : list Event :=
  match n with
  | O => []
  | S n' =>
      Polled now (okStatus processing "en cours")
        :: Tick (now + pollDelay) :: stillProcessing n' (now + pollDelay)
  end.

End UploadPoller.

(** ** Text

    A JavaScript string is a sequence of UTF-16 code units.  The strings
    that only travel through the client (ids, messages, file names of
    uploads) are kept as byte strings; those the client lowers and
    searches, the titles and previews of sessions, the file names of global
    documents and the search terms, are sequences of code units. *)
Definition Text := list N.

(** The text of a literal written in Basic Latin. *)
Definition textOf (s : string) : Text :=
  map N_of_ascii (list_ascii_of_string s).

(** *** [String.prototype.toLowerCase]

    ECMAScript reads the string as code points ([StringToCodePoints]),
    lowers them by the default case conversion of Unicode, and writes the
    result back as code units ([CodePointsToString]).  The conversion uses
    the locale-insensitive mappings of the Unicode Character Database:
    the lowercase mapping of each code point, which is one code point or,
    for U+0130, two; and, for the capital sigma U+03A3, the small final
    sigma U+03C2 where the condition [Final_Sigma] of SpecialCasing.txt
    holds.  The database itself is a parameter. *)
Class CaseData := {
  lowercaseMapping : N -> list N;
  cased : N -> bool;
  caseIgnorable : N -> bool
}.

Definition isLeadSurrogate (u : N) : bool :=
  ((0xD800 <=? u) && (u <=? 0xDBFF))%N.

Definition isTrailSurrogate (u : N) : bool :=
  ((0xDC00 <=? u) && (u <=? 0xDFFF))%N.

(** A lead surrogate followed by a trail surrogate is one code point; any
    other code unit is a code point by itself. *)
Fixpoint stringToCodePoints (s : Text) : list N :=
  match s with
  | [] => []
  | u :: rest =>
      match rest with
      | v :: rest' =>
          if isLeadSurrogate u && isTrailSurrogate v
          then (0x10000 + (u - 0xD800) * 0x400 + (v - 0xDC00))%N
                 :: stringToCodePoints rest'
          else u :: stringToCodePoints rest
      | [] => [u]
      end
  end.

Definition codePointToUnits (cp : N) : Text :=
  if (cp <? 0x10000)%N then [cp]
  else [ (0xD800 + (cp - 0x10000) / 0x400)%N;
         (0xDC00 + (cp - 0x10000) mod 0x400)%N ].

Section CaseConversion.

Context {data : CaseData}.

(** The code points start with case-ignorable ones, if any, followed by a
    cased one. *)
Fixpoint casedAfterIgnorables (cps : list N) : bool :=
  match cps with
  | [] => false
  | x :: rest =>
      if cased x then true
      else if caseIgnorable x then casedAfterIgnorables rest
      else false
  end.

(** [Final_Sigma]: the sigma is preceded by a cased letter and then
    case-ignorable characters, if any, and is not followed by
    case-ignorable characters, if any, and then a cased letter.  [before]
    holds the code points before the sigma, the nearest first. *)
Definition finalSigma (before after : list N) : bool :=
  casedAfterIgnorables before && negb (casedAfterIgnorables after).

Fixpoint lowerFrom (before cps : list N) : list N :=
  match cps with
  | [] => []
  | x :: rest =>
      (if (x =? 0x3A3)%N && finalSigma before rest then [0x3C2%N]
       else lowercaseMapping x)
        ++ lowerFrom (x :: before) rest
  end.

Definition toLowerCase (s : Text) : Text :=
  flat_map codePointToUnits (lowerFrom [] (stringToCodePoints s)).

(** A code unit that is a character by itself, other than the capital
    sigma, whose lowercase mapping is one code unit; and that code unit. *)
Definition plain (x : N) : bool :=
  negb (isLeadSurrogate x) && negb (isTrailSurrogate x)
  && negb (x =? 0x3A3)%N
  && match lowercaseMapping x with
     | [y] => (y <? 0x10000)%N
     | _ => false
     end.

Definition lowerUnit (x : N) : N :=
  match lowercaseMapping x with
  | [y] => y
  | _ => x
  end.

Definition plainText (s : Text) : Prop := Forall (fun x => plain x = true) s.

End CaseConversion.

(** The entries of the database for Basic Latin and for the Greek letters
    [Α]-[Ω] and [α]-[ω]: the capitals are lowered by adding 32; the
    case-ignorable characters of Basic Latin are the apostrophe, the full
    stop, the colon, the circumflex and the grave accent. *)
Definition isCapital (x : N) : bool :=
  (((0x41 <=? x) && (x <=? 0x5A))
   || ((0x391 <=? x) && (x <=? 0x3A9) && negb (x =? 0x3A2)))%N.

Definition isSmall (x : N) : bool :=
  (((0x61 <=? x) && (x <=? 0x7A)) || ((0x3B1 <=? x) && (x <=? 0x3C9)))%N.

Definition latinGreek : CaseData :=
  {| lowercaseMapping x := if isCapital x then [(x + 32)%N] else [x];
     cased x := isCapital x || isSmall x;
     caseIgnorable x :=
       ((x =? 0x27) || (x =? 0x2E) || (x =? 0x3A) || (x =? 0x5E)
        || (x =? 0x60))%N |}.

(** ** EmployeeDashboard *)

(** [ChatSession]; [session_id] is the field [id]. *)
Record ChatSession := mkSession {
  session_id : string;
  title : Text;
  preview : option Text;
  message_count : nat;
  updated_at : string
}.

Inductive MessageType := user | assistant.

(** [ChatMessage]; [message_id] and [message_type] are the fields [id] and
    [type]. *)
Record ChatMessage := mkMessage {
  message_id : string;
  message_type : MessageType;
  content : string;
  timestamp : string
}.

(** [Document]; [doc_id], [doc_filename] and [doc_status] are the fields
    [document_id], [filename] and [status]. *)
Record Document := mkDocument {
  doc_id : string;
  doc_filename : Text;
  chunks : nat;
  total_length : nat;
  doc_status : Status;
  uploaded_by : option string
}.

(** The [useState] cells of the component. *)
Record Dashboard := mkDashboard {
  sessions : list ChatSession;
  currentSession : option ChatSession;
  messages : list ChatMessage;
  documents : list Document;
  isLoading : bool;
  showDocumentManager : bool
}.

(** The state at mount. *)
Definition mounted : Dashboard :=
  {| sessions := []; currentSession := None; messages := [];
     documents := []; isLoading := false; showDocumentManager := false |}.

Definition setSessions (f : list ChatSession -> list ChatSession)
    (d : Dashboard) : Dashboard :=
  {| sessions := f (sessions d); currentSession := currentSession d;
     messages := messages d; documents := documents d;
     isLoading := isLoading d; showDocumentManager := showDocumentManager d |}.

Definition setCurrentSession (s : option ChatSession) (d : Dashboard)
  : Dashboard :=
  {| sessions := sessions d; currentSession := s; messages := messages d;
     documents := documents d; isLoading := isLoading d;
     showDocumentManager := showDocumentManager d |}.

Definition setMessages (ms : list ChatMessage) (d : Dashboard) : Dashboard :=
  {| sessions := sessions d; currentSession := currentSession d;
     messages := ms; documents := documents d; isLoading := isLoading d;
     showDocumentManager := showDocumentManager d |}.

Definition setDocuments (ds : list Document) (d : Dashboard) : Dashboard :=
  {| sessions := sessions d; currentSession := currentSession d;
     messages := messages d; documents := ds; isLoading := isLoading d;
     showDocumentManager := showDocumentManager d |}.

Definition setShowDocumentManager (b : bool) (d : Dashboard) : Dashboard :=
  {| sessions := sessions d; currentSession := currentSession d;
     messages := messages d; documents := documents d;
     isLoading := isLoading d; showDocumentManager := b |}.

(** In the functions below the awaited value is [Some r] when the promise
    resolved with [r] and [None] when it rejected; every [catch] of the
    component only logs. *)

(** [loadSessions] after [await apiService.getChatSessions()]. *)
Definition loadSessions_resume (r : option (list ChatSession)) (d : Dashboard)
  : Dashboard :=
  match r with
  | Some fetched => setSessions (fun _ => fetched) d
  | None => d
  end.

(** [loadDocuments] after [await apiService.getDocuments()]. *)
Definition loadDocuments_resume (r : option (list Document)) (d : Dashboard)
  : Dashboard :=
  match r with
  | Some fetched => setDocuments fetched d
  | None => d
  end.

(** [createNewChat] after [await apiService.createChatSession()]. *)
Definition createNewChat_resume (r : option ChatSession) (d : Dashboard)
  : Dashboard :=
  match r with
  | Some newSession =>
      setMessages []
        (setCurrentSession (Some newSession)
           (setSessions (fun prev => newSession :: prev) d))
  | None => d
  end.

(** [currentSession?.id === sessionId] *)
Definition isCurrent (current : option ChatSession) (sessionId : string)
  : bool :=
  match current with
  | Some s => bool_decide (session_id s = sessionId)
  | None => false
  end.

(** [deleteSession(sessionId)] up to its [await]: nothing is changed yet;
    the handler is the one of the render in which the user asked for the
    deletion, and the [currentSession] it will compare with is the one of
    that render. *)
Definition deleteSession_call (sessionId : string) (d : Dashboard)
  : option ChatSession :=
  currentSession d.

(** [deleteSession(sessionId)] after
    [await apiService.deleteChatSession(sessionId)].  [current] is the
    [currentSession] kept by the handler; [d] is the state when the call
    settles. *)
Definition deleteSession_resume (current : option ChatSession)
    (sessionId : string) (r : option unit) (d : Dashboard) : Dashboard :=
  match r with
  | Some _ =>
      let d1 :=
        setSessions
          (fun prev =>
             List.filter
               (fun s => negb (bool_decide (session_id s = sessionId))) prev)
          d in
      if isCurrent current sessionId
      then setMessages [] (setCurrentSession None d1)
      else d1
  | None => d
  end.

(** [onDocumentChange] of the document manager, once the fetch started by
    [loadDocuments()] has settled: the modal has been closed meanwhile. *)
Definition onDocumentChange_resume (r : option (list Document))
    (d : Dashboard) : Dashboard :=
  loadDocuments_resume r (setShowDocumentManager false d).

(** *** The backend as the client sees it

    [apiService] wraps HTTP calls to a server that is not part of the
    client.  The class lists the calls used here; a call may change the
    server and may fail. *)
Class ApiService (Server : Type) := {
  getChatSessions : Server -> option (list ChatSession);
  createChatSession : Server -> option ChatSession * Server;
  deleteChatSession : string -> Server -> option unit * Server;
  getDocuments : Server -> option (list Document);
  deleteDocument : string -> Server -> option unit * Server
}.

Section WithServer.

Context {Server : Type} {api : ApiService Server}.

(** The handlers run to completion against a server, without any other
    activity in between. *)
Definition loadSessions (srv : Server) (d : Dashboard) : Dashboard :=
  loadSessions_resume (getChatSessions srv) d.

Definition createNewChat (srv : Server) (d : Dashboard) : Server * Dashboard :=
  let '(r, srv') := createChatSession srv in
  (srv', createNewChat_resume r d).

Definition deleteSession (sessionId : string) (srv : Server) (d : Dashboard)
  : Server * Dashboard :=
  let '(r, srv') := deleteChatSession sessionId srv in
  (srv', deleteSession_resume (deleteSession_call sessionId d) sessionId r d).

(** [DocumentList.handleDelete] confirmed by the user, seen from the
    dashboard: on success [onDocumentDeleted] is [onDocumentChange]. *)
Definition deletePersonalDocument (documentId : string) (srv : Server)
    (d : Dashboard) : Server * Dashboard :=
  let '(r, srv') := deleteDocument documentId srv in
  match r with
  | Some _ => (srv', onDocumentChange_resume (getDocuments srv') d)
  | None => (srv', d)
  end.

End WithServer.

(** *** A server for examples

    Sessions are kept newest first, the order in which the dashboard
    itself inserts them; the [n]-th session created gets the id [s<n>]. *)
Record MemoryServer := mkServer {
  storedSessions : list ChatSession;
  storedDocuments : list Document;
  created : N
}.

Definition freshSession (n : N) : ChatSession :=
  {| session_id := "s" +:+ pretty n;
     title := textOf "Nouvelle conversation";
     preview := None; message_count := 0; updated_at := "" |}.

Global Instance memoryApi : ApiService MemoryServer := {|
  getChatSessions srv := Some (storedSessions srv);
  createChatSession srv :=
    let s := freshSession (created srv + 1) in
    (Some s,
     {| storedSessions := s :: storedSessions srv;
        storedDocuments := storedDocuments srv;
        created := (created srv + 1)%N |});
  deleteChatSession sid srv :=
    (Some tt,
     {| storedSessions :=
          List.filter (fun s => negb (bool_decide (session_id s = sid)))
            (storedSessions srv);
        storedDocuments := storedDocuments srv;
        created := created srv |});
  getDocuments srv := Some (storedDocuments srv);
  deleteDocument did srv :=
    (Some tt,
     {| storedSessions := storedSessions srv;
        storedDocuments :=
          List.filter (fun x => negb (bool_decide (doc_id x = did)))
            (storedDocuments srv);
        created := created srv |})
|}.

Definition emptyServer : MemoryServer :=
  {| storedSessions := []; storedDocuments := []; created := 0 |}.

(** *** Example data *)

Definition sampleSession (n : N) (t : string) : ChatSession :=
  {| session_id := "s" +:+ pretty n; title := textOf t;
     preview := Some (textOf "ISO 27001");
     message_count := 2; updated_at := "2025-01-01T10:00:00" |}.

Definition sampleDashboard : Dashboard :=
  {| sessions := [sampleSession 2 "Politique RGPD"; sampleSession 1 "Audit"];
     currentSession := Some (sampleSession 2 "Politique RGPD");
     messages :=
       [ {| message_id := "m1"; message_type := user; content := "Bonjour";
            timestamp := "2025-01-01T10:00:00" |} ];
     documents := []; isLoading := false; showDocumentManager := false |}.

Definition sampleDocument (n : N) : Document :=
  {| doc_id := "doc" +:+ pretty n; doc_filename := textOf "policy.pdf";
     chunks := 12; total_length := 4096; doc_status := ready;
     uploaded_by := None |}.

Definition sampleServer : MemoryServer :=
  {| storedSessions := [sampleSession 1 "Audit"];
     storedDocuments := [sampleDocument 1; sampleDocument 2];
     created := 1 |}.

(** ** DocumentList *)

(** [deletingIds], and what [handleDelete] did besides: calls of the
    [onDocumentDeleted] prop and of [alert]. *)
Record DocumentListState := mkDocumentList {
  deletingIds : gset string;
  deletedCalls : nat;
  alerts : nat
}.

Definition setDeletingIds (f : gset string -> gset string)
    (s : DocumentListState) : DocumentListState :=
  {| deletingIds := f (deletingIds s); deletedCalls := deletedCalls s;
     alerts := alerts s |}.

(** [handleDelete(documentId)] up to [await apiService.deleteDocument]:
    [confirmed] is the answer of [window.confirm].  The boolean tells
    whether the API call is made. *)
Definition handleDelete_call (confirmed : bool) (documentId : string)
    (s : DocumentListState) : DocumentListState * bool :=
  if confirmed
  then (setDeletingIds (fun prev => prev ∪ {[documentId]}) s, true)
  else (s, false).

(** [handleDelete] resumed with the outcome of the API call: the [try]
    or the [catch] branch, then [finally]. *)
Definition handleDelete_resume (documentId : string) (r : option unit)
    (s : DocumentListState) : DocumentListState :=
  let s1 :=
    match r with
    | Some _ =>
        {| deletingIds := deletingIds s; deletedCalls := S (deletedCalls s);
           alerts := alerts s |}
    | None =>
        {| deletingIds := deletingIds s; deletedCalls := deletedCalls s;
           alerts := S (alerts s) |}
    end in
  setDeletingIds (fun prev => prev ∖ {[documentId]}) s1.

(** ** Sidebar *)

(** [s.startsWith(t)] *)
Fixpoint startsWith (s t : Text) {struct t} : bool :=
  match t, s with
  | [], _ => true
  | _ :: _, [] => false
  | b :: t', a :: s' => bool_decide (a = b) && startsWith s' t'
  end.

(** [s.includes(t)]: [t] occurs in [s] at some position. *)
Fixpoint includes (s t : Text) : bool :=
  startsWith s t ||
  match s with
  | [] => false
  | _ :: s' => includes s' t
  end.

Section Sidebar.

Context {data : CaseData}.

(** The predicate of [sessions.filter]; an undefined [preview] makes the
    second disjunct undefined, hence falsy. *)
Definition matchesSearch (searchTerm : Text) (session : ChatSession) : bool :=
  includes (toLowerCase (title session)) (toLowerCase searchTerm) ||
  match preview session with
  | Some pv => includes (toLowerCase pv) (toLowerCase searchTerm)
  | None => false
  end.

Definition filteredSessions (sessions : list ChatSession)
    (searchTerm : Text) : list ChatSession :=
  List.filter (matchesSearch searchTerm) sessions.

(** *** What the filter looks for *)

(** The lowered [term] is a part of the lowered [text]. *)
Definition lowerContains (text term : Text) : Prop :=
  exists before after : Text,
    toLowerCase text = before ++ toLowerCase term ++ after.

Definition mentions (searchTerm : Text) (session : ChatSession) : Prop :=
  lowerContains (title session) searchTerm \/
  exists pv, preview session = Some pv /\ lowerContains pv searchTerm.

(** *** The words of the specification *)

(** [text] contains [term] up to case: some part of [text] and [term] are
    equal once lowered. *)
Definition containsIgnoringCase (text term : Text) : Prop :=
  exists before part after : Text,
    text = before ++ part ++ after /\
    toLowerCase part = toLowerCase term.

Definition mentionsIgnoringCase (searchTerm : Text) (session : ChatSession)
  : Prop :=
  containsIgnoringCase (title session) searchTerm \/
  exists pv,
    preview session = Some pv /\ containsIgnoringCase pv searchTerm.

(** Title and preview of the session are plain. *)
Definition plainSession (session : ChatSession) : Prop :=
  plainText (title session) /\
  forall pv, preview session = Some pv -> plainText pv.

End Sidebar.

(** [term] is a part of [text] as it stands. *)
Definition contains (text term : Text) : Prop :=
  exists before after : Text, text = before ++ term ++ after.

(** ** More of the upload components *)

Section UploadDrop.

Context {Metadata : Type}.

(** [files.forEach(handleFileUpload)] of [handleDrop] and
    [handleFileSelect]: every file starts its own closure, which runs up to
    its first [await]; each call reads [Date.now()] for itself. *)
Fixpoint handleDrop (c : Component) (files : list (string * N))
    (p : @Page Metadata) : list Loop * @Page Metadata :=
  match files with
  | [] => ([], p)
  | (name, now) :: rest =>
      let '(l, p1) := handleFileUpload_call c name now idle p in
      let '(ls, p2) := handleDrop c rest p1 in
      (l :: ls, p2)
  end.

(** The keys of the files of a drop. *)
Definition keysOf (files : list (string * N)) : list string :=
  map (fun f => makeFileId f.1 f.2) files.

(** The entry of an upload of the global component carries the name of
    the dropped file. *)
Definition named (key name : string) (l : Loop) (p : @Page Metadata) : Prop :=
  fileId l = key /\ fileName l = name /\
  match phase l with
  | Idle => False
  | Stopped =>
      forall e, entryOf key p = Some e -> filename e = Some name
  | _ => exists e, entryOf key p = Some e /\ filename e = Some name
  end.

End UploadDrop.

(** ** The upload components inside their dashboards

    [FileUpload] is rendered by [DocumentManager], which [EmployeeDashboard]
    renders while [showDocumentManager] holds, with the callback
    [() => { loadDocuments(); setShowDocumentManager(false); }];
    [GlobalDocumentUpload] is rendered by [AdminDashboard] while it is not
    loading, with the callback [loadDashboardData], which starts with
    [setIsLoading(true)].  Either callback therefore unmounts the upload
    component, and so does the user who closes the modal or leaves the tab.

    Unmounting cancels neither the requests nor the timers of the uploads
    under way: their closures go on, their updates of [uploadingFiles],
    addressed to an instance that is gone, are dropped, and their calls of
    the callback reach the dashboard as before.  A component mounted later
    starts with the empty mapping of [useState({})]. *)

Section Hosted.

Context {Metadata : Type}.

(** The closure of one [handleFileUpload] call and the instance of the
    component whose [setUploadingFiles] it holds. *)
Record Upload := mkUpload {
  home : nat;
  closure : Loop
}.

(** [isOpen]: the upload component is mounted; [instance]: the number of
    the instance mounted last; [hostPage]: the [uploadingFiles] of that
    instance and the calls of the callback received by the dashboard;
    [uploads]: the closures started so far, oldest first. *)
Record Host := mkHost {
  isOpen : bool;
  instance : nat;
  hostPage : @Page Metadata;
  uploads : list Upload
}.

(** The dashboard with the component just mounted. *)
Definition hostOf (p : @Page Metadata) : Host :=
  {| isOpen := true; instance := 0; hostPage := p; uploads := [] |}.

(** The upload belongs to the instance that is mounted. *)
Definition live (h : Host) (u : Upload) : bool :=
  isOpen h && (home u =? instance h).

(** The state of an instance that is gone, which nobody reads; the calls
    of the callback go on being counted. *)
Definition gone (p : @Page Metadata) : @Page Metadata :=
  {| uploadingFiles := ∅; notified := notified p |}.

Inductive HostEvent :=
| Drop (name : string) (now : N)
| Of (i : nat) (ev : @Event Metadata)
| Close
| Open.

(** One event of the dashboard: a file dropped on the mounted component;
    a response or a timer of the [i]-th upload; the component unmounted by
    the user; the component mounted again.  An upload whose instance is
    mounted updates its state; the updates of any other are dropped.  When
    the step has called the callback the component is unmounted. *)
Definition hostStep (c : Component) (e : HostEvent) (h : Host) : option Host :=
  match e with
  | Drop name now =>
      if isOpen h then
        let '(l, p) := handleFileUpload_call c name now idle (hostPage h) in
        Some {| isOpen := true; instance := instance h; hostPage := p;
                uploads :=
                  uploads h ++ [{| home := instance h; closure := l |}] |}
      else None
  | Of i ev =>
      match uploads h !! i with
      | Some u =>
          let mine := live h u in
          match step c ev (closure u)
                  (if mine then hostPage h else gone (hostPage h)) with
          | Some (l', p') =>
              let called :=
                negb (notified p' =? notified (hostPage h)) in
              Some {| isOpen := isOpen h && negb called;
                      instance := instance h;
                      hostPage :=
                        if mine then p'
                        else {| uploadingFiles := uploadingFiles (hostPage h);
                                notified := notified p' |};
                      uploads :=
                        <[i := {| home := home u; closure := l' |}]>
                          (uploads h) |}
          | None => None
          end
      | None => None
      end
  | Close =>
      if isOpen h
      then Some {| isOpen := false; instance := instance h;
                   hostPage := hostPage h; uploads := uploads h |}
      else None
  | Open =>
      if isOpen h then None
      else Some {| isOpen := true; instance := S (instance h);
                   hostPage := gone (hostPage h); uploads := uploads h |}
  end.

(** A run: events that cannot happen are skipped. *)
Fixpoint hostRun (c : Component) (es : list HostEvent) (h : Host) : Host :=
  match es with
  | [] => h
  | e :: es' =>
      match hostStep c e h with
      | Some h' => hostRun c es' h'
      | None => hostRun c es' h
      end
  end.

(** What the user sees under a key: the entry of the mounted instance. *)
Definition visible (key : string) (h : Host) : option ProcessingStatus :=
  if isOpen h then entryOf key (hostPage h) else None.

(** The answers of the server, as opposed to the timers. *)
Definition isResponse (ev : @Event Metadata) : bool :=
  match ev with
  | Uploaded _ | Polled _ _ => true
  | _ => false
  end.

(** *** Invariants of the dashboard

    Stated here, proved below. *)

(** Every closure has started, belongs to an instance that has existed,
    and counts its fetches as in [counted]. *)
Definition wellFormed (h : Host) : Prop :=
  forall i u, uploads h !! i = Some u ->
    phase (closure u) <> Idle /\ home u <= instance h /\ counted (closure u).

(** No upload but the [i]-th uses the key. *)
Definition ownKey (key : string) (i : nat) (h : Host) : Prop :=
  forall j v, uploads h !! j = Some v -> j <> i -> fileId (closure v) <> key.

(** No file dropped during the run gets the key. *)
Definition freshDrops (key : string) (es : list HostEvent) : Prop :=
  forall name now, In (Drop name now) es -> makeFileId name now <> key.

(** While its instance is mounted, an upload that is not over has an
    entry that is not in error, and an entry in error belongs to an upload
    that is over. *)
Definition tracked (l : Loop) (e : option (@ProcessingStatus Metadata))
  : Prop :=
  match phase l with
  | Idle => False
  | Stopped => True
  | _ => exists x, e = Some x /\ status x <> error
  end /\
  (forall x, e = Some x -> status x = error -> phase l = Stopped).

End Hosted.

(** ** More of EmployeeDashboard *)

Definition setIsLoading (b : bool) (d : Dashboard) : Dashboard :=
  {| sessions := sessions d; currentSession := currentSession d;
     messages := messages d; documents := documents d; isLoading := b;
     showDocumentManager := showDocumentManager d |}.

(** [loadSession] after [await apiService.getChatSession(sessionId)]:
    [sessionData.session] and [sessionData.messages]. *)
Definition loadSession_resume (r : option (ChatSession * list ChatMessage))
    (d : Dashboard) : Dashboard :=
  match r with
  | Some (session, msgs) => setMessages msgs (setCurrentSession (Some session) d)
  | None => d
  end.

(** [loadInitialData] after [await Promise.all([...])], which rejects as
    soon as one of the two fetches does.  The second component is the id
    [loadSession] is then called with, if any. *)
Definition loadInitialData_resume (rs : option (list ChatSession))
    (rd : option (list Document)) (d : Dashboard)
  : Dashboard * option string :=
  match rs, rd with
  | Some fetchedSessions, Some fetchedDocuments =>
      (setDocuments fetchedDocuments
         (setSessions (fun _ => fetchedSessions) d),
       match fetchedSessions with
       | first :: _ => Some (session_id first)
       | [] => None
       end)
  | _, _ => (d, None)
  end.

(** [sendMessage(content)] up to its first [await]: without a current
    session it returns at once; otherwise it is about to call
    [sendMessageToSession] with the id returned here. *)
Definition sendMessage_call (d : Dashboard) : option (string * Dashboard) :=
  match currentSession d with
  | None => None
  | Some s => Some (session_id s, setIsLoading true d)
  end.

(** [sendMessage] after its awaits: [sent] is the outcome of
    [sendMessageToSession], [reloaded] that of the fetch made by
    [loadSession] and [listed] that of the fetch made by [loadSessions],
    which both catch their own failures. *)
Definition sendMessage_resume (sent : option unit)
    (reloaded : option (ChatSession * list ChatMessage))
    (listed : option (list ChatSession)) (d : Dashboard) : Dashboard :=
  setIsLoading false
    match sent with
    | Some _ => loadSessions_resume listed (loadSession_resume reloaded d)
    | None => d
    end.

(** What the user does to the sessions, each handler run to completion. *)
Inductive SessionAction :=
| CreateChat (r : option ChatSession)
| DeleteChat (sessionId : string) (r : option unit).

Definition act (d : Dashboard) (a : SessionAction) : Dashboard :=
  match a with
  | CreateChat r => createNewChat_resume r d
  | DeleteChat sessionId r =>
      deleteSession_resume (currentSession d) sessionId r d
  end.

(** The current session, if any, is one of the sessions listed. *)
Definition activeListed (d : Dashboard) : Prop :=
  match currentSession d with
  | Some s => session_id s ∈ map session_id (sessions d)
  | None => True
  end.

(** ** More of DocumentList *)

(** [filename.split('.')] *)
Fixpoint splitDot (s : string) : list string :=
  match s with
  | EmptyString => [EmptyString]
  | String a s' =>
      if decide (a = "."%char) then EmptyString :: splitDot s'
      else
        match splitDot s' with
        | h :: t => String a h :: t
        | [] => [String a EmptyString]
        end
  end.

(** [parts.join('.')] *)
Fixpoint joinDot (parts : list string) : string :=
  match parts with
  | [] => EmptyString
  | [h] => h
  | h :: t => h +:+ "." +:+ joinDot t
  end.

(** [filename.split('.').pop()] *)
Definition extensionOf (filename : string) : string :=
  List.last (splitDot filename) EmptyString.

Section FileKinds.

(** [toLowerCase] on the extension of a file name, whatever it gives. *)
Variable lower : string -> string.

Definition getFileIcon (filename : string) : string :=
  let extension := lower (extensionOf filename) in
  if decide (extension = "pdf") then "📄"
  else if decide (extension = "docx") then "📝"
  else if decide (extension = "doc") then "📝"
  else if decide (extension = "txt") then "📋"
  else if decide (extension = "png") then "🖼️"
  else if decide (extension = "jpg") then "🖼️"
  else if decide (extension = "jpeg") then "🖼️"
  else "📁".

Definition getDocumentTypeColor (filename : string) : string :=
  let extension := lower (extensionOf filename) in
  if decide (extension = "pdf") then "bg-red-100 text-red-800 border-red-200"
  else if decide (extension = "docx")
       then "bg-blue-100 text-blue-800 border-blue-200"
  else if decide (extension = "doc")
       then "bg-blue-100 text-blue-800 border-blue-200"
  else if decide (extension = "txt")
       then "bg-gray-100 text-gray-800 border-gray-200"
  else if decide (extension = "png")
       then "bg-purple-100 text-purple-800 border-purple-200"
  else if decide (extension = "jpg")
       then "bg-purple-100 text-purple-800 border-purple-200"
  else if decide (extension = "jpeg")
       then "bg-purple-100 text-purple-800 border-purple-200"
  else "bg-green-100 text-green-800 border-green-200".

End FileKinds.

(** No dot in a string. *)
Definition dotless (s : string) : Prop :=
  "."%char ∉ list_ascii_of_string s.

(** *** The delete buttons of the list

    A button is [disabled={deletingIds.has(document.document_id)}].
    [inFlight] lists the API calls that have been made and have not
    settled, by document id; it is not part of the program. *)
Record DeletePanel := mkDeletePanel {
  listState : DocumentListState;
  inFlight : list string;
  settledCalls : nat
}.

Inductive DeleteEvent :=
| ClickDelete (documentId : string) (confirmed : bool)
| DeleteSettled (documentId : string) (r : option unit).

(** One call less for [documentId]. *)
Fixpoint settleOne (documentId : string) (calls : list string)
  : list string :=
  match calls with
  | [] => []
  | x :: rest =>
      if decide (x = documentId) then rest
      else x :: settleOne documentId rest
  end.

(** A click on an enabled button runs [handleDelete] up to its [await];
    a call that settles resumes it.  [None]: the button is disabled, or
    no such call is in flight. *)
Definition deleteStep (ev : DeleteEvent) (s : DeletePanel)
  : option DeletePanel :=
  match ev with
  | ClickDelete documentId confirmed =>
      if decide (documentId ∈ deletingIds (listState s)) then None
      else
        let r := handleDelete_call confirmed documentId (listState s) in
        Some {| listState := r.1;
                inFlight :=
                  if r.2 then documentId :: inFlight s else inFlight s;
                settledCalls := settledCalls s |}
  | DeleteSettled documentId r =>
      if decide (documentId ∈ inFlight s)
      then Some {| listState := handleDelete_resume documentId r (listState s);
                   inFlight := settleOne documentId (inFlight s);
                   settledCalls := S (settledCalls s) |}
      else None
  end.

Fixpoint deleteRun (evs : list DeleteEvent) (s : DeletePanel) : DeletePanel :=
  match evs with
  | [] => s
  | ev :: evs' =>
      match deleteStep ev s with
      | Some s' => deleteRun evs' s'
      | None => deleteRun evs' s
      end
  end.

Definition freshPanel : DeletePanel :=
  {| listState := {| deletingIds := ∅; deletedCalls := 0; alerts := 0 |};
     inFlight := []; settledCalls := 0 |}.

(** The ids shown as being deleted are those of the calls in flight, one
    call each; every settled call has given a callback or an alert. *)
Definition tidy (s : DeletePanel) : Prop :=
  NoDup (inFlight s) /\
  (forall x, x ∈ deletingIds (listState s) <-> x ∈ inFlight s) /\
  deletedCalls (listState s) + alerts (listState s) = settledCalls s.

(** ** ChatInterface *)

Section ChatInput.

(** The code units [trim] removes: white space and line terminators. *)
Variable isWhite : ascii -> bool.

(** [s.trimStart()] *)
Fixpoint trimStart (s : string) : string :=
  match s with
  | EmptyString => EmptyString
  | String a s' => if isWhite a then trimStart s' else s
  end.

(** [s.trimEnd()] *)
Fixpoint trimEnd (s : string) : string :=
  match s with
  | EmptyString => EmptyString
  | String a s' =>
      match trimEnd s' with
      | EmptyString => if isWhite a then EmptyString else String a EmptyString
      | t => String a t
      end
  end.

(** [s.trim()] *)
Definition trim (s : string) : string := trimEnd (trimStart s).

Definition allWhite (s : string) : Prop :=
  Forall (fun a => isWhite a = true) (list_ascii_of_string s).

(** The first and the last code unit, if any. *)
Definition firstUnit (s : string) : option ascii :=
  match s with
  | EmptyString => None
  | String a _ => Some a
  end.

Fixpoint lastUnit (s : string) : option ascii :=
  match s with
  | EmptyString => None
  | String a s' =>
      match lastUnit s' with
      | Some b => Some b
      | None => Some a
      end
  end.

(** A non-empty string is truthy, and so is a session id that is neither
    null nor empty. *)
Definition truthy (s : string) : bool :=
  negb (bool_decide (s = EmptyString)).

Definition truthyId (sessionId : option string) : bool :=
  match sessionId with
  | Some s => truthy s
  | None => false
  end.

(** [handleSubmit] of the message form: the message passed to
    [onSendMessage], if any, and the new [inputValue]. *)
Definition handleSubmit (inputValue : string) (isLoading : bool)
    (sessionId : option string) : option string * string :=
  if truthy (trim inputValue) && negb isLoading && truthyId sessionId
  then (Some (trim inputValue), EmptyString)
  else (None, inputValue).

(** [handleKeyDown]: the Enter key without Shift submits. *)
Definition handleKeyDown (key : string) (shiftKey : bool)
    (inputValue : string) (isLoading : bool) (sessionId : option string)
  : option string * string :=
  if bool_decide (key = "Enter") && negb shiftKey
  then handleSubmit inputValue isLoading sessionId
  else (None, inputValue).

End ChatInput.

(** [sessionId={currentSession?.id || null}] *)
Definition sessionIdOf (d : Dashboard) : option string :=
  match currentSession d with
  | Some s => if truthy (session_id s) then Some (session_id s) else None
  | None => None
  end.

(** The text of a [SourceCard]:
    [chunk_content.length > 200 ? chunk_content.substring(0, 200) + '...' : chunk_content] *)
Definition excerpt (chunk_content : string) : string :=
  if 200 <? String.length chunk_content
  then substring 0 200 chunk_content +:+ "..."
  else chunk_content.

(** The sources under an assistant message: nothing without sources; else
    [sources.slice(0, 3)] as cards and, past three, the number of the
    others. *)
Definition sourcesPanel {A : Type} (sources : option (list A))
  : option (list A * option nat) :=
  match sources with
  | Some l =>
      if 0 <? length l
      then Some (firstn 3 l,
                 if 3 <? length l then Some (length l - 3) else None)
      else None
  | None => None
  end.

(** ** AdminDashboard *)

Record AdminStats := mkAdminStats {
  total_global_documents : nat;
  total_personal_documents : nat;
  total_queries_today : nat
}.

(** [stats], [globalDocuments] and [isLoading] (here [adminLoading]) of
    the component, and the number of calls of [alert]. *)
Record AdminDashboardState := mkAdmin {
  stats : option AdminStats;
  globalDocuments : list Document;
  adminLoading : bool;
  adminAlerts : nat
}.

(** [loadDashboardData] up to its [await]. *)
Definition loadDashboardData_call (a : AdminDashboardState)
  : AdminDashboardState :=
  {| stats := stats a; globalDocuments := globalDocuments a;
     adminLoading := true; adminAlerts := adminAlerts a |}.

(** [loadDashboardData] after [await Promise.all([getAdminDashboard(),
    getGlobalDocuments()])]: the [try] or the [catch], then [finally]. *)
Definition loadDashboardData_resume (fetchedStats : option AdminStats)
    (fetchedDocuments : option (list Document)) (a : AdminDashboardState)
  : AdminDashboardState :=
  match fetchedStats, fetchedDocuments with
  | Some st, Some ds =>
      {| stats := Some st; globalDocuments := ds; adminLoading := false;
         adminAlerts := adminAlerts a |}
  | _, _ =>
      {| stats := stats a; globalDocuments := globalDocuments a;
         adminLoading := false; adminAlerts := adminAlerts a |}
  end.

(** [handleDeleteDocument], run to completion: [confirmed] is the answer
    of [window.confirm], [deleted] the outcome of [deleteGlobalDocument];
    the reload catches its own failures, so only a failed delete reaches
    the [catch] with its [alert]. *)
Definition handleDeleteDocument (confirmed : bool) (deleted : option unit)
    (fetchedStats : option AdminStats)
    (fetchedDocuments : option (list Document)) (a : AdminDashboardState)
  : AdminDashboardState :=
  if confirmed then
    match deleted with
    | Some _ =>
        loadDashboardData_resume fetchedStats fetchedDocuments
          (loadDashboardData_call a)
    | None =>
        {| stats := stats a; globalDocuments := globalDocuments a;
           adminLoading := adminLoading a; adminAlerts := S (adminAlerts a) |}
    end
  else a.

(** [globalDocuments.filter(doc =>
      doc.filename.toLowerCase().includes(searchTerm.toLowerCase()))] *)
Definition filteredDocuments {data : CaseData}
    (globalDocuments : list Document) (searchTerm : Text) : list Document :=
  List.filter
    (fun doc =>
       includes (toLowerCase (doc_filename doc)) (toLowerCase searchTerm))
    globalDocuments.

(** ** Login *)

Record LoginCredentials := mkCredentials {
  username : string;
  password : string
}.

(** [name] of the two inputs of the form. *)
Inductive Field := Username | Password.

(** The state of the form ([login_isLoading] and [login_error] are
    [isLoading] and [error]), and what it did: the credentials of the calls
    of [authService.login], latest first, how many of them have settled,
    and the calls of [onLoginSuccess]. *)
Record LoginForm := mkLoginForm {
  credentials : LoginCredentials;
  showPassword : bool;
  login_isLoading : bool;
  login_error : option string;
  loginCalls : list LoginCredentials;
  loginSettled : nat;
  loginSuccesses : nat
}.

Definition emptyForm : LoginForm :=
  {| credentials := {| username := ""; password := "" |};
     showPassword := false; login_isLoading := false; login_error := None;
     loginCalls := []; loginSettled := 0; loginSuccesses := 0 |}.

(** [handleInputChange]: [{...prev, [name]: value}], and
    [if (error) setError(null)]: an error that is a non-empty string is
    cleared. *)
Definition handleInputChange (name : Field) (value : string) (f : LoginForm)
  : LoginForm :=
  {| credentials :=
       match name with
       | Username =>
           {| username := value; password := password (credentials f) |}
       | Password =>
           {| username := username (credentials f); password := value |}
       end;
     showPassword := showPassword f; login_isLoading := login_isLoading f;
     login_error :=
       match login_error f with
       | Some message => if truthy message then None else Some message
       | None => None
       end;
     loginCalls := loginCalls f;
     loginSettled := loginSettled f; loginSuccesses := loginSuccesses f |}.

(** [{error && ...}]: the error box is rendered for a non-empty error. *)
Definition errorShown (f : LoginForm) : option string :=
  match login_error f with
  | Some message => if truthy message then Some message else None
  | None => None
  end.

(** [disabled={isLoading || !credentials.username || !credentials.password}] *)
Definition submitDisabled (f : LoginForm) : bool :=
  login_isLoading f
  || bool_decide (username (credentials f) = "")
  || bool_decide (password (credentials f) = "").

(** [handleSubmit] up to [await authService.login(credentials)]. *)
Definition handleSubmit_call (f : LoginForm) : LoginForm :=
  {| credentials := credentials f; showPassword := showPassword f;
     login_isLoading := true; login_error := None;
     loginCalls := credentials f :: loginCalls f;
     loginSettled := loginSettled f; loginSuccesses := loginSuccesses f |}.

(** Outcome of the login call: success, or an error with its message. *)
Inductive LoginOutcome := LoggedIn | LoginFailed (message : string).

(** [handleSubmit] resumed: [onLoginSuccess()] or [setError], then
    [finally]. *)
Definition handleSubmit_resume (r : LoginOutcome) (f : LoginForm)
  : LoginForm :=
  {| credentials := credentials f; showPassword := showPassword f;
     login_isLoading := false;
     login_error :=
       match r with
       | LoggedIn => login_error f
       | LoginFailed message => Some message
       end;
     loginCalls := loginCalls f; loginSettled := S (loginSettled f);
     loginSuccesses :=
       match r with
       | LoggedIn => S (loginSuccesses f)
       | LoginFailed _ => loginSuccesses f
       end |}.

Inductive LoginEvent :=
| Typed (name : Field) (value : string)
| ToggledPassword
| Submitted
| LoginSettled (r : LoginOutcome).

(** The form submits only through its enabled button, and a call settles
    only when one is in flight. *)
Definition loginStep (ev : LoginEvent) (f : LoginForm) : option LoginForm :=
  match ev with
  | Typed name value => Some (handleInputChange name value f)
  | ToggledPassword =>
      Some {| credentials := credentials f;
              showPassword := negb (showPassword f);
              login_isLoading := login_isLoading f;
              login_error := login_error f; loginCalls := loginCalls f;
              loginSettled := loginSettled f;
              loginSuccesses := loginSuccesses f |}
  | Submitted =>
      if submitDisabled f then None else Some (handleSubmit_call f)
  | LoginSettled r =>
      if loginSettled f <? length (loginCalls f)
      then Some (handleSubmit_resume r f)
      else None
  end.

Fixpoint loginRun (evs : list LoginEvent) (f : LoginForm) : LoginForm :=
  match evs with
  | [] => f
  | ev :: evs' =>
      match loginStep ev f with
      | Some f' => loginRun evs' f'
      | None => loginRun evs' f
      end
  end.

(** One call at most is in flight, and the form is loading exactly then;
    no call was made with an empty user name or password. *)
Definition orderly (f : LoginForm) : Prop :=
  length (loginCalls f) =
    loginSettled f + (if login_isLoading f then 1 else 0) /\
  loginSuccesses f <= loginSettled f /\
  Forall (fun c => username c <> "" /\ password c <> "") (loginCalls f).

(** * Properties *)

(** ** The upload/status poller *)

Section PollerFacts.

Context {Metadata : Type}.

#[local] Abbreviation ProcessingStatus := (@ProcessingStatus Metadata).
#[local] Abbreviation Page := (@Page Metadata).
#[local] Abbreviation Event := (@Event Metadata).

Implicit Types (c : Component) (l : Loop) (p : Page) (ev : Event)
  (evs : list Event) (s : ProcessingStatus).

(** Case analysis of one [step]. *)
Ltac step_cases H :=
  unfold step, handleFileUpload_call, handleFileUpload_resume, poll_resume,
    poll_call, graceTimeout, withPhase in H;
  repeat
    match type of H with
    | context [match ?x with _ => _ end] => destruct x eqn:?
    | context [if ?x then _ else _] => destruct x eqn:?
    end;
  try discriminate H; injection H as <- <-; simpl in *.

(** *** The closure keeps its key *)

Lemma step_fileId c ev l p l' p' :
  step c ev l p = Some (l', p') -> phase l <> Idle ->
  fileId l' = fileId l /\ fileName l' = fileName l.
Proof. intros H Hph. step_cases H; auto; congruence. Qed.

Lemma step_started c ev l p l' p' :
  step c ev l p = Some (l', p') -> phase l' <> Idle.
Proof. intros H. step_cases H; discriminate. Qed.

(** A step writes under the key of its closure only. *)
Lemma step_frame c ev l p l' p' key :
  step c ev l p = Some (l', p') -> key <> fileId l' ->
  entryOf key p' = entryOf key p.
Proof.
  intros H Hk. unfold entryOf.
  step_cases H; unfold setEntry, markError, removeEntry;
    rewrite ?lookup_insert_ne, ?lookup_delete_ne by congruence; reflexivity.
Qed.

(** Nothing happens to an upload that is over. *)
Lemma step_Stopped c ev l p : phase l = Stopped -> step c ev l p = None.
Proof. intros H. unfold step. rewrite H. reflexivity. Qed.

Lemma exec_Stopped c evs l p : phase l = Stopped -> exec c evs l p = (l, p).
Proof.
  intros H. induction evs as [|ev evs IH]; simpl; [reflexivity|].
  rewrite step_Stopped by assumption. exact IH.
Qed.

Lemma reactions_Stopped c evs l p :
  phase l = Stopped -> reactions c evs l p = 0.
Proof.
  intros H. induction evs as [|ev evs IH]; simpl; [reflexivity|].
  rewrite step_Stopped by assumption. exact IH.
Qed.

(** *** Counting the fetches *)

Lemma counted_idle : counted idle.
Proof. reflexivity. Qed.

Lemma counted_step c ev l p l' p' :
  step c ev l p = Some (l', p') -> counted l -> counted l'.
Proof.
  intros H. unfold counted, maxAttempts.
  step_cases H;
    repeat match goal with
           | E : phase _ = _ |- _ => rewrite E
           | E : (_ <? _) = true |- _ => apply Nat.ltb_lt in E
           | E : (_ <? _) = false |- _ => apply Nat.ltb_ge in E
           end; unfold maxAttempts in *; simpl; lia.
Qed.

Lemma counted_exec c evs l p :
  counted l -> counted (exec c evs l p).1.
Proof.
  revert l p. induction evs as [|ev evs IH]; intros l p Hl; simpl; [exact Hl|].
  destruct (step c ev l p) as [[l' p']|] eqn:E; [|auto].
  apply IH. eapply counted_step; eassumption.
Qed.

Lemma counted_bound l : counted l -> fetches l <= maxAttempts.
Proof. unfold counted, maxAttempts. destruct (phase l); lia. Qed.

(** *** Every run is finite *)

Lemma remaining_step c ev l p l' p' :
  step c ev l p = Some (l', p') -> remaining l' < remaining l.
Proof.
  intros H. unfold remaining, maxAttempts.
  step_cases H;
    repeat match goal with
           | E : phase _ = _ |- _ => rewrite E
           | E : (_ <? _) = true |- _ => apply Nat.ltb_lt in E
           | E : (_ <? _) = false |- _ => apply Nat.ltb_ge in E
           end; unfold maxAttempts in *; simpl; lia.
Qed.

Lemma reactions_remaining c evs l p : reactions c evs l p <= remaining l.
Proof.
  revert l p. induction evs as [|ev evs IH]; intros l p; simpl; [lia|].
  destruct (step c ev l p) as [[l' p']|] eqn:E; [|apply IH].
  specialize (IH l' p'). apply remaining_step in E. lia.
Qed.

(** The answer to the fetch counted [maxAttempts] stops the upload when it
    is not terminal; the answer to an earlier one re-arms the timer. *)
Lemma poll_resume_pending c now s l p :
  status s <> ready -> status s <> error ->
  poll_resume c now (FetchOk s) l p =
  if S (attempts l) <? maxAttempts
  then (withPhase Sleeping (S (attempts l)) (now + pollDelay)%N l,
        setUploadingFiles
          (setEntry (fileId l) (fetchedEntry c s (fileName l))) p)
  else (withPhase Stopped (S (attempts l)) (due l) l,
        setUploadingFiles (markError (fileId l) (msgTimeout c))
          (setUploadingFiles
             (setEntry (fileId l) (fetchedEntry c s (fileName l))) p)).
Proof.
  intros Hr He. unfold poll_resume. destruct (status s); congruence.
Qed.


(** *** Invariants of a run *)

Lemma exec_invariant (I : Loop -> Page -> Prop) c :
  (forall ev l p l' p', step c ev l p = Some (l', p') -> I l p -> I l' p') ->
  forall evs l p, I l p -> I (exec c evs l p).1 (exec c evs l p).2.
Proof.
  intros Hstep evs. induction evs as [|ev evs IH]; intros l p Hl; simpl.
  - exact Hl.
  - destruct (step c ev l p) as [[l' p']|] eqn:E; [|auto].
    apply IH. eapply Hstep; eassumption.
Qed.

Lemma shown_step c ev l p l' p' :
  step c ev l p = Some (l', p') -> shown l p -> shown l' p'.
Proof.
  intros H. unfold shown, entryOf.
  step_cases H; unfold setEntry, markError, removeEntry;
    repeat match goal with E : phase _ = _ |- _ => rewrite E end;
    rewrite ?lookup_insert_eq; eauto.
Qed.

Lemma notifiedOnce_step n0 c ev l p l' p' :
  step c ev l p = Some (l', p') -> notifiedOnce n0 l p -> notifiedOnce n0 l' p'.
Proof.
  intros H. unfold notifiedOnce.
  step_cases H;
    repeat match goal with E : phase _ = _ |- _ => rewrite E end; auto.
Qed.

Lemma reached c evs p0 :
  let l := (exec c evs idle p0).1 in
  let p := (exec c evs idle p0).2 in
  shown l p /\ notifiedOnce (notified p0) l p.
Proof.
  split.
  - apply exec_invariant; [apply shown_step | exact I].
  - apply exec_invariant; [apply notifiedOnce_step | reflexivity].
Qed.


(** C8. The timeout and the fetch-exception transitions replace only
    [status] and [message] of the entry of the upload: [document_id],
    [filename] and [metadata] are those of the snapshot written last (the
    previous entry for the exception, the entry just fetched for the
    timeout), and every other entry of the mapping is left as it was. *)
Theorem error_transitions_keep_fields c evs p0 now :
  let l := (exec c evs idle p0).1 in
  let p := (exec c evs idle p0).2 in
  phase l = AwaitStatus ->
  (exists old l' p' e,
     entryOf (fileId l) p = Some old /\
     step c (Polled now FetchThrow) l p = Some (l', p') /\
     entryOf (fileId l) p' = Some e /\
     status e = error /\ message e = msgPollingFailed c /\
     document_id e = document_id old /\
     filename e = filename old /\
     metadata e = metadata old /\
     forall key, key <> fileId l -> entryOf key p' = entryOf key p) /\
  (forall s, status s <> ready -> status s <> error -> fetches l = 60 ->
   exists l' p' e,
     step c (Polled now (FetchOk s)) l p = Some (l', p') /\
     entryOf (fileId l) p' = Some e /\
     status e = error /\ message e = msgTimeout c /\
     document_id e = document_id (fetchedEntry c s (fileName l)) /\
     filename e = filename (fetchedEntry c s (fileName l)) /\
     metadata e = metadata (fetchedEntry c s (fileName l)) /\
     forall key, key <> fileId l -> entryOf key p' = entryOf key p).
Proof.
  intros l p Hph.
  destruct (reached c evs p0) as [Hshown _]. fold l p in Hshown.
  unfold shown in Hshown. rewrite Hph in Hshown. destruct Hshown as [old Hold].
  split.
  - exists old. unfold step. rewrite Hph. simpl.
    eexists _, _, _. split; [exact Hold|]. split; [reflexivity|].
    unfold entryOf, markError in *. simpl. rewrite lookup_insert_eq, Hold.
    split; [reflexivity|]. simpl. repeat (split; [reflexivity|]).
    intros key Hk. apply lookup_insert_ne. congruence.
  - intros s Hr He H60.
    pose proof (counted_exec c evs idle p0 counted_idle) as Hc. fold l in Hc.
    unfold counted in Hc. rewrite Hph in Hc. destruct Hc as [Hf Ha].
    unfold step. rewrite Hph. rewrite poll_resume_pending by assumption.
    assert (E : (S (attempts l) <? maxAttempts) = false)
      by (apply Nat.ltb_ge; unfold maxAttempts; lia).
    rewrite E. eexists _, _, _. split; [reflexivity|].
    unfold entryOf, markError, setEntry. simpl.
    rewrite !lookup_insert_eq. split; [reflexivity|]. simpl.
    repeat (split; [reflexivity|]).
    intros key Hk. rewrite !lookup_insert_ne by congruence. reflexivity.
Qed.

(** *** The statuses the view shows *)

Lemma observe_idem seen (e : option ProcessingStatus) :
  observe (observe seen e) e = observe seen e.
Proof.
  unfold observe. destruct e as [e|]; [|reflexivity].
  destruct (decide (last seen = Some (status e))) as [Hl|Hl].
  - rewrite decide_True by assumption. reflexivity.
  - rewrite decide_True; [reflexivity|]. apply last_snoc.
Qed.

Lemma status_fetchedEntry c s name :
  status (fetchedEntry c s name) = status s.
Proof. destruct c; reflexivity. Qed.

Lemma status_spreadError (old : option ProcessingStatus) msg :
  status (spreadError old msg) = error.
Proof. destruct old; reflexivity. Qed.

Lemma chain_step c ev l p l' p' seen :
  step c ev l p = Some (l', p') -> serverStatus ev -> phase l <> Idle ->
  chain l seen -> observe seen (entryOf (fileId l) p) = seen ->
  chain l' (observe seen (entryOf (fileId l) p')).
Proof.
  intros H Hev Hph Hch Hobs. unfold chain in *.
  step_cases H; try congruence;
    repeat match goal with E : phase _ = _ |- _ => rewrite E in * end;
    subst seen; try exact Hobs;
    unfold entryOf, setEntry, markError, removeEntry, observe; simpl;
    rewrite ?lookup_insert_eq, ?lookup_delete_eq;
    rewrite ?status_fetchedEntry, ?status_spreadError; simpl;
    repeat match goal with E : status _ = _ |- _ => rewrite E in * end;
    simpl; auto; try congruence.
Qed.

Lemma watch_chain c key evs l p seen :
  Forall serverStatus evs -> phase l <> Idle -> fileId l = key ->
  chain l seen -> observe seen (entryOf key p) = seen ->
  let l' := (exec c evs l p).1 in
  chain l' (watch c key evs l p seen).
Proof.
  intros Hall. revert l p seen.
  induction Hall as [|ev evs Hev Hall IH]; intros l p seen Hph Hk Hch Hobs;
    simpl; [exact Hch|].
  destruct (step c ev l p) as [[l' p']|] eqn:E; [|apply IH; assumption].
  destruct (step_fileId _ _ _ _ _ _ E Hph) as [Hid _].
  apply IH.
  - eapply step_started; eassumption.
  - congruence.
  - subst key. eapply chain_step; eassumption.
  - apply observe_idem.
Qed.

Lemma chain_sublist l seen :
  chain l seen ->
  seen `sublist_of` [uploading; processing; ready] \/
  seen `sublist_of` [uploading; processing; error].
Proof.
  unfold chain. destruct (phase l); intros H;
    repeat match goal with H : _ \/ _ |- _ => destruct H as [H|H] end;
    subst seen;
    first [ left; repeat (first [apply sublist_nil | apply sublist_skip
                                | apply sublist_cons]); fail
          | right; repeat (first [apply sublist_nil | apply sublist_skip
                                 | apply sublist_cons]) ].
Qed.

Lemma elem_of_observe x seen (e : option ProcessingStatus) :
  x ∈ observe seen e -> x ∈ seen \/ (status <$> e) = Some x.
Proof.
  unfold observe. destruct e as [e|]; [|auto].
  destruct (decide _); [auto|].
  rewrite elem_of_app, list_elem_of_singleton. intros [?| ->]; auto.
Qed.

Lemma observe_pending seen (e : option ProcessingStatus) :
  (status <$> e) <> Some ready -> (status <$> e) <> Some error ->
  ready ∈ observe seen e \/ error ∈ observe seen e ->
  ready ∈ seen \/ error ∈ seen.
Proof.
  intros Hr He [Hin|Hin]; apply elem_of_observe in Hin; tauto.
Qed.

Lemma settled_step c ev l p l' p' seen :
  step c ev l p = Some (l', p') -> phase l <> Idle -> settled l seen ->
  observe seen (entryOf (fileId l) p) = seen ->
  settled l' (observe seen (entryOf (fileId l) p')).
Proof.
  intros H Hph Hs Hobs. unfold settled in *.
  step_cases H; try congruence;
    repeat match goal with E : phase _ = _ |- _ => rewrite E in * end;
    try (intros _; auto; fail);
    try (rewrite Hobs; intros Hin; destruct (Hs Hin); congruence);
    intros Hin; apply observe_pending in Hin;
    try (destruct (Hs Hin); congruence);
    unfold entryOf, setEntry; simpl; rewrite lookup_insert_eq; simpl;
    rewrite ?status_fetchedEntry; congruence.
Qed.

Lemma watch_settled c key evs l p seen :
  fileId l = key -> phase l = Grace \/ phase l = Stopped ->
  watch c key evs l p seen = seen.
Proof.
  revert l p. induction evs as [|ev evs IH]; intros l p Hk Hph; simpl;
    [reflexivity|].
  destruct (step c ev l p) as [[l' p']|] eqn:E; [|apply IH; assumption].
  destruct Hph as [Hph|Hph]; [|rewrite step_Stopped in E by assumption;
                                 discriminate].
  unfold step in E. rewrite Hph in E. destruct ev; try discriminate.
  destruct (due l <=? now)%N; [|discriminate].
  injection E as <- <-. simpl.
  subst key. unfold entryOf, removeEntry. simpl.
  rewrite lookup_delete_eq. simpl.
  apply IH; [reflexivity | right; reflexivity].
Qed.

Lemma watch_app c key evs1 evs2 l p seen :
  watch c key (evs1 ++ evs2) l p seen =
  watch c key evs2 (exec c evs1 l p).1 (exec c evs1 l p).2
    (watch c key evs1 l p seen).
Proof.
  revert l p seen. induction evs1 as [|ev evs1 IH]; intros l p seen; simpl.
  - reflexivity.
  - destruct (step c ev l p) as [[l' p']|]; apply IH.
Qed.

Lemma watch_settles c key evs l p seen :
  phase l <> Idle -> fileId l = key -> settled l seen ->
  observe seen (entryOf key p) = seen ->
  let l' := (exec c evs l p).1 in
  fileId l' = key /\ settled l' (watch c key evs l p seen).
Proof.
  revert l p seen.
  induction evs as [|ev evs IH]; intros l p seen Hph Hk Hs Hobs;
    simpl; [auto|].
  destruct (step c ev l p) as [[l' p']|] eqn:E; [|apply IH; assumption].
  destruct (step_fileId _ _ _ _ _ _ E Hph) as [Hid _].
  apply IH.
  - eapply step_started; eassumption.
  - congruence.
  - subst key. eapply settled_step; eassumption.
  - apply observe_idem.
Qed.

Lemma watch_dropped c name now evs p0 :
  watch c (makeFileId name now) (Dropped name now :: evs) idle p0 [] =
  watch c (makeFileId name now) evs
    (handleFileUpload_call c name now idle p0).1
    (handleFileUpload_call c name now idle p0).2 [uploading].
Proof.
  change (watch c (makeFileId name now) (Dropped name now :: evs) idle p0 [])
    with (watch c (makeFileId name now) evs
            (handleFileUpload_call c name now idle p0).1
            (handleFileUpload_call c name now idle p0).2
            (observe []
               (entryOf (makeFileId name now)
                  (handleFileUpload_call c name now idle p0).2))).
  f_equal. unfold entryOf, handleFileUpload_call, setUploadingFiles, setEntry.
  simpl. rewrite lookup_insert_eq. reflexivity.
Qed.

(** C2, amended.  Along any run of one upload the statuses shown for
    its entry, consecutive repetitions dropped, form a subsequence of
    (uploading, processing, ready) or of (uploading, processing, error),
    provided the server never reports [uploading]; and, whatever the server
    reports, once [ready] or [error] has been shown no other status is
    shown afterwards. *)
Theorem observed_statuses_monotone c name now evs p0 :
  let key := makeFileId name now in
  let seen := watch c key (Dropped name now :: evs) idle p0 [] in
  (Forall serverStatus evs ->
   seen `sublist_of` [uploading; processing; ready] \/
   seen `sublist_of` [uploading; processing; error]) /\
  (forall evs1 evs2, evs = evs1 ++ evs2 ->
   let seen1 := watch c key (Dropped name now :: evs1) idle p0 [] in
   ready ∈ seen1 \/ error ∈ seen1 -> seen = seen1).
Proof.
  intros key seen. subst seen key.
  set (key := makeFileId name now).
  set (l1 := (handleFileUpload_call c name now idle p0).1).
  set (p1 := (handleFileUpload_call c name now idle p0).2).
  assert (Hobs : observe [uploading] (entryOf key p1) = [uploading]).
  { unfold entryOf, p1, key, handleFileUpload_call, setUploadingFiles,
      setEntry. simpl. rewrite lookup_insert_eq. reflexivity. }
  split.
  - intros Hall. unfold key. rewrite watch_dropped. fold key l1 p1.
    eapply chain_sublist.
    apply (watch_chain c key evs l1 p1 [uploading]);
      first [assumption | reflexivity | discriminate].
  - intros evs1 evs2 -> seen1 Hin. subst seen1. unfold key in Hin |- *.
    rewrite watch_dropped in Hin. rewrite !watch_dropped.
    fold key l1 p1 in Hin |- *.
    rewrite watch_app.
    destruct (watch_settles c key evs1 l1 p1 [uploading]) as [Hk Hs];
      [discriminate | reflexivity | | exact Hobs |].
    + intros [Hin'|Hin']; apply list_elem_of_singleton in Hin'; discriminate.
    + apply watch_settled; [exact Hk | exact (Hs Hin)].
Qed.

End PollerFacts.


(** The example of the specification: the entry of "policy.pdf" shows
    [ready] after the second poll, is still there just before the grace
    period ends, and is gone, with one call of the callback, once it has
    ended. *)
Example policy_example :
  let shows (evs : list Event) :=
    let r := exec (Metadata := unit) FileUpload (policyRun ++ evs) idle noPage in
    (status <$> entryOf "policy.pdf-1000" r.2, notified r.2, fetches r.1) in
  shows [] = (Some ready, 0, 2) /\
  shows [Tick 6599] = (Some ready, 0, 2) /\
  shows [Tick 6600] = (None, 1, 2) /\
  shows [Tick 6600; Tick 9000; Polled 9500 (okStatus ready "pret")]
    = (None, 1, 2).
Proof. vm_compute. repeat split; reflexivity. Qed.


(** The first status fetch of "policy.pdf" throws: the entry keeps the
    document id the upload response gave. *)
Lemma error_transitions_keep_fields_witness :
  let evs := [ Dropped "policy.pdf" 1000; Uploaded accepted ] in
  let l := (exec (Metadata := unit) FileUpload evs idle noPage).1 in
  let p := (exec (Metadata := unit) FileUpload evs idle noPage).2 in
  phase l = AwaitStatus /\
  exists l' p' e,
    step FileUpload (Polled 1500 FetchThrow) l p = Some (l', p') /\
    entryOf (fileId l) p' = Some e /\
    status e = error /\ document_id e = Some "doc123".
Proof.
  intros evs l p.
  assert (Hph : phase l = AwaitStatus) by reflexivity.
  split; [exact Hph|].
  destruct (error_transitions_keep_fields FileUpload evs noPage 1500%N Hph)
    as ((old & l' & p' & e & Hold & Hs & He & Hst & _ & Hid & _) & _).
  exists l', p', e. split; [exact Hs|]. split; [exact He|].
  split; [exact Hst|]. rewrite Hid.
  vm_compute in Hold. injection Hold as <-. reflexivity.
Defined.

(** C2 as stated fails: the client shows whatever status the server
    reports, so a server answering [uploading] to the first poll takes the
    entry back from [processing] to [uploading]. *)
Lemma server_reporting_uploading_regresses :
  let seen :=
    watch (Metadata := unit) FileUpload (makeFileId "policy.pdf" 1000)
      [ Dropped "policy.pdf" 1000; Uploaded accepted;
        Polled 1500 (okStatus uploading "en attente") ] idle noPage [] in
  seen = [uploading; processing; uploading] /\
  ~ (seen `sublist_of` [uploading; processing; ready] \/
     seen `sublist_of` [uploading; processing; error]).
Proof.
  intros seen.
  assert (E : seen = [uploading; processing; uploading])
    by (vm_compute; reflexivity).
  rewrite E. split; [reflexivity|].
  intros [H|H];
    repeat match goal with
           | H : _ `sublist_of` _ |- _ => inversion H; clear H; subst
           end.
Qed.

(** The run of the specification's example, followed by the grace timer. *)
Lemma observed_statuses_monotone_witness :
  let evs1 := [ Uploaded accepted;
                Polled 1500 (okStatus (Metadata := unit) processing "en cours");
                Tick 3500; Polled 3600 (okStatus ready "pret") ] in
  let evs := evs1 ++ [Tick 6600] in
  let seen := watch FileUpload (makeFileId "policy.pdf" 1000)
                (Dropped "policy.pdf" 1000 :: evs) idle noPage [] in
  let seen1 := watch FileUpload (makeFileId "policy.pdf" 1000)
                 (Dropped "policy.pdf" 1000 :: evs1) idle noPage [] in
  Forall serverStatus evs /\
  (seen `sublist_of` [uploading; processing; ready] \/
   seen `sublist_of` [uploading; processing; error]) /\
  ready ∈ seen1 /\ seen = seen1.
Proof.
  intros evs1 evs seen seen1.
  assert (Hall : Forall serverStatus evs).
  { repeat constructor; simpl; discriminate. }
  assert (Hin : ready ∈ seen1).
  { vm_compute. apply list_elem_of_In. simpl. auto. }
  destruct (observed_statuses_monotone FileUpload "policy.pdf" 1000 evs noPage)
    as [H1 H2].
  split; [exact Hall|]. split; [exact (H1 Hall)|]. split; [exact Hin|].
  apply (H2 evs1 [Tick 6600] eq_refl). left. exact Hin.
Defined.

(** ** Keys of the mapping *)

Lemma chars_append (s1 s2 : string) :
  list_ascii_of_string (s1 +:+ s2) =
  list_ascii_of_string s1 ++ list_ascii_of_string s2.
Proof.
  induction s1 as [|a s1 IH]; simpl; [reflexivity|].
  unfold String.app in *. simpl. rewrite IH. reflexivity.
Qed.

Lemma chars_inj (s1 s2 : string) :
  list_ascii_of_string s1 = list_ascii_of_string s2 -> s1 = s2.
Proof.
  intros H. rewrite <- (string_of_list_ascii_of_string s1),
    <- (string_of_list_ascii_of_string s2), H. reflexivity.
Qed.

Lemma pretty_N_char_not_dash (x : N) : pretty_N_char x <> "-"%char.
Proof. unfold pretty_N_char. repeat case_match; discriminate. Qed.

(** The decimal digits of a number hold no dash. *)
Lemma pretty_N_go_chars (x : N) (s : string) :
  exists digits,
    list_ascii_of_string (pretty_N_go x s) =
      digits ++ list_ascii_of_string s /\
    "-"%char ∉ digits.
Proof.
  revert s. induction (N.lt_wf_0 x) as [x _ IH]; intros s.
  destruct (decide (x = 0%N)) as [->|Hx].
  - exists []. rewrite pretty_N_go_0. split; [reflexivity|].
    apply not_elem_of_nil.
  - rewrite pretty_N_go_step by lia.
    destruct (IH (x `div` 10)%N) with
      (s := String (pretty_N_char (x `mod` 10)) s) as (ds & E & Hd).
    { apply N.div_lt; lia. }
    exists (ds ++ [pretty_N_char (x `mod` 10)%N]). split.
    + rewrite E. simpl. rewrite <- app_assoc. reflexivity.
    + rewrite elem_of_app, list_elem_of_singleton.
      intros [H|H]; [exact (Hd H)|].
      symmetry in H. exact (pretty_N_char_not_dash _ H).
Qed.

Lemma pretty_N_no_dash (x : N) :
  "-"%char ∉ list_ascii_of_string (pretty x).
Proof.
  unfold pretty, pretty_N. destruct (decide (x = 0%N)).
  - simpl. rewrite !elem_of_cons. intros [H|H]; [discriminate|].
    exact (not_elem_of_nil _ H).
  - destruct (pretty_N_go_chars x "") as (ds & E & Hd).
    rewrite E. simpl. rewrite app_nil_r. exact Hd.
Qed.

(** A list is cut in one way only at the last occurrence of an element. *)
Lemma cut_at_last {A} (x : A) (l1 l2 r1 r2 : list A) :
  l1 ++ x :: r1 = l2 ++ x :: r2 -> x ∉ r1 -> x ∉ r2 ->
  l1 = l2 /\ r1 = r2.
Proof.
  revert l2. induction l1 as [|a l1 IH]; intros [|b l2] E H1 H2; simpl in E.
  - injection E as ->. auto.
  - injection E as <- ->. exfalso. apply H1.
    rewrite elem_of_app, elem_of_cons. auto.
  - injection E as -> <-. exfalso. apply H2.
    rewrite elem_of_app, elem_of_cons. auto.
  - injection E as -> E. destruct (IH l2 E H1 H2) as [-> ->]. auto.
Qed.

(** Two keys are equal only for the same file name and the same instant. *)
Lemma makeFileId_inj (name1 name2 : string) (now1 now2 : N) :
  makeFileId name1 now1 = makeFileId name2 now2 ->
  name1 = name2 /\ now1 = now2.
Proof.
  unfold makeFileId. intros E.
  apply (f_equal list_ascii_of_string) in E.
  rewrite !chars_append in E. simpl in E.
  apply cut_at_last in E as [En Et]; try apply pretty_N_no_dash.
  split; [exact (chars_inj _ _ En)|].
  apply chars_inj in Et. exact (pretty_N_inj _ _ Et).
Qed.

(** ** The upload components inside their dashboards *)

Section HostedFacts.

Context {Metadata : Type}.

Implicit Types (c : Component) (l : Loop) (p q : @Page Metadata)
  (ev : @Event Metadata) (e : @HostEvent Metadata)
  (es : list (@HostEvent Metadata)) (h : @Host Metadata) (u v : Upload)
  (key : string).

Ltac host_step H :=
  unfold step, handleFileUpload_call, handleFileUpload_resume, poll_resume,
    poll_call, graceTimeout, withPhase in H;
  repeat
    match type of H with
    | context [match ?x with _ => _ end] => destruct x eqn:?
    | context [if ?x then _ else _] => destruct x eqn:?
    end;
  try discriminate H; injection H as <- <-; simpl in *.

(** Only the timer of the grace period calls the callback, once. *)
Lemma step_callback c ev l p l' p' :
  step c ev l p = Some (l', p') ->
  (notified p' = notified p \/
   notified p' = S (notified p) /\ phase l = Grace /\ phase l' = Stopped) /\
  (isResponse ev = true -> notified p' = notified p).
Proof.
  intros H. host_step H; split; auto; discriminate.
Qed.

Lemma wellFormed_hostOf p : wellFormed (hostOf p).
Proof. intros i u H. discriminate. Qed.

Lemma wellFormed_step c e h h' :
  hostStep c e h = Some h' -> wellFormed h -> wellFormed h'.
Proof.
  intros H Hwf i u Hu. destruct e as [name now|j ev| |]; simpl in H.
  - destruct (isOpen h); [|discriminate]. injection H as <-. simpl in Hu.
    apply lookup_app_Some in Hu as [Hu|[_ Hu]]; [exact (Hwf i u Hu)|].
    apply list_lookup_singleton_Some in Hu as [_ <-]. simpl.
    split; [discriminate|]. split; [lia | reflexivity].
  - destruct (uploads h !! j) as [v|] eqn:Ev; [|discriminate].
    destruct (step c ev (closure v) _) as [[l' p']|] eqn:Es; [|discriminate].
    injection H as <-. simpl in Hu.
    destruct (Hwf j v Ev) as (Hph & Hhome & Hc).
    destruct (decide (i = j)) as [->|Hne].
    + rewrite list_lookup_insert_eq in Hu
        by (eapply lookup_lt_Some; eassumption).
      injection Hu as <-. simpl.
      split; [eapply step_started; eassumption|].
      split; [exact Hhome | eapply counted_step; eassumption].
    + rewrite list_lookup_insert_ne in Hu by congruence.
      exact (Hwf i u Hu).
  - destruct (isOpen h); [|discriminate]. injection H as <-.
    exact (Hwf i u Hu).
  - destruct (isOpen h); [discriminate|]. injection H as <-. simpl in *.
    destruct (Hwf i u Hu) as (Hph & Hhome & Hc). auto.
Qed.

Lemma wellFormed_run c es h : wellFormed h -> wellFormed (hostRun c es h).
Proof.
  revert h. induction es as [|e es IH]; intros h Hwf; simpl; [exact Hwf|].
  destruct (hostStep c e h) as [h'|] eqn:E; [|auto].
  apply IH. eapply wellFormed_step; eassumption.
Qed.

(** An upload keeps its place, its instance, its key and its file name. *)
Lemma hostStep_keeps c e h h' i u :
  hostStep c e h = Some h' -> wellFormed h -> uploads h !! i = Some u ->
  exists u',
    uploads h' !! i = Some u' /\ home u' = home u /\
    fileId (closure u') = fileId (closure u) /\
    fileName (closure u') = fileName (closure u) /\
    ((forall ev, e <> Of i ev) -> u' = u).
Proof.
  intros H Hwf Hu. destruct e as [name now|j ev| |]; simpl in H.
  - destruct (isOpen h); [|discriminate]. injection H as <-. simpl.
    exists u. rewrite lookup_app_l by (eapply lookup_lt_Some; eassumption).
    auto.
  - destruct (uploads h !! j) as [v|] eqn:Ev; [|discriminate].
    destruct (step c ev (closure v) _) as [[l' p']|] eqn:Es; [|discriminate].
    injection H as <-. simpl.
    destruct (decide (i = j)) as [->|Hne].
    + rewrite Hu in Ev. injection Ev as <-.
      destruct (Hwf j u Hu) as (Hph & _).
      destruct (step_fileId _ _ _ _ _ _ Es Hph) as [Hid Hname].
      eexists. rewrite list_lookup_insert_eq
        by (eapply lookup_lt_Some; eassumption).
      split; [reflexivity|]. simpl. repeat (split; [assumption || reflexivity|]).
      intros Hno. exfalso. exact (Hno ev eq_refl).
    + exists u. rewrite list_lookup_insert_ne by congruence. auto.
  - destruct (isOpen h); [|discriminate]. injection H as <-. exists u. auto.
  - destruct (isOpen h); [discriminate|]. injection H as <-. exists u. auto.
Qed.

Lemma hostRun_keeps c es h i u :
  wellFormed h -> uploads h !! i = Some u ->
  exists u',
    uploads (hostRun c es h) !! i = Some u' /\ home u' = home u /\
    fileId (closure u') = fileId (closure u) /\
    fileName (closure u') = fileName (closure u).
Proof.
  revert h u. induction es as [|e es IH]; intros h u Hwf Hu; simpl.
  - exists u. auto.
  - destruct (hostStep c e h) as [h'|] eqn:E; [|auto].
    destruct (hostStep_keeps _ _ _ _ _ _ E Hwf Hu)
      as (u1 & Hu1 & Hh & Hid & Hn & _).
    destruct (IH h' u1 (wellFormed_step _ _ _ _ E Hwf) Hu1)
      as (u' & Hu' & Hh' & Hid' & Hn').
    exists u'. split; [exact Hu'|]. repeat split; congruence.
Qed.

(** A response of the server to one upload changes neither the entries
    under other keys, nor whether the component is mounted, nor the calls
    of the callback. *)
Lemma response_frame c i ev h h' u key :
  hostStep c (Of i ev) h = Some h' -> isResponse ev = true ->
  wellFormed h -> uploads h !! i = Some u -> key <> fileId (closure u) ->
  entryOf key (hostPage h') = entryOf key (hostPage h) /\
  isOpen h' = isOpen h /\ instance h' = instance h /\
  notified (hostPage h') = notified (hostPage h).
Proof.
  intros H Hev Hwf Hu Hk. simpl in H. rewrite Hu in H.
  destruct (step c ev (closure u) _) as [[l' p']|] eqn:Es; [|discriminate].
  injection H as <-. simpl.
  destruct (Hwf i u Hu) as (Hph & _).
  destruct (step_fileId _ _ _ _ _ _ Es Hph) as [Hid _].
  destruct (step_callback _ _ _ _ _ _ Es) as [_ Hn]. specialize (Hn Hev).
  destruct (live h u) eqn:El; simpl in *.
  - rewrite Hn, Nat.eqb_refl. simpl. rewrite andb_true_r.
    split; [|auto]. eapply step_frame; [eassumption | congruence].
  - rewrite Hn, Nat.eqb_refl. simpl. rewrite andb_true_r. auto.
Qed.

(** One step of the dashboard, seen from an upload whose key no other
    upload shares: [K] is kept by the closure, and [J] by the closure and
    its entry as long as the instance of the upload is mounted, if the
    steps of the upload itself keep them. *)
Lemma hostStep_invariant c key i (allowed : @Event Metadata -> Prop)
    (K : Loop -> Prop) (J : Loop -> option (@ProcessingStatus Metadata) -> Prop) :
  (forall ev l p l' p',
     allowed ev -> step c ev l p = Some (l', p') -> phase l <> Idle ->
     fileId l = key -> K l -> K l') ->
  (forall ev l p l' p',
     allowed ev -> step c ev l p = Some (l', p') -> phase l <> Idle ->
     fileId l = key -> K l -> J l (entryOf key p) ->
     J l' (entryOf key p')) ->
  forall e h h' u,
    hostStep c e h = Some h' ->
    (forall name now, e = Drop name now -> makeFileId name now <> key) ->
    (forall ev, e = Of i ev -> allowed ev) ->
    wellFormed h -> ownKey key i h ->
    uploads h !! i = Some u -> fileId (closure u) = key -> K (closure u) ->
    (live h u = true -> J (closure u) (entryOf key (hostPage h))) ->
    exists u',
      uploads h' !! i = Some u' /\ home u' = home u /\
      fileId (closure u') = key /\ K (closure u') /\ ownKey key i h' /\
      (live h' u' = true ->
       live h u = true /\ J (closure u') (entryOf key (hostPage h'))).
Proof.
  intros HK HJ e h h' u H Hdrop Hown Hwf Halone Hu Hid Hk Hj.
  pose proof (lookup_lt_Some _ _ _ Hu) as Hlt.
  destruct (Hwf i u Hu) as (Hph & Hhome & _).
  destruct e as [name now|j ev| |]; simpl in H.
  - (* a file is dropped *)
    destruct (isOpen h) eqn:Eo; [|discriminate]. injection H as <-. simpl.
    exists u. rewrite lookup_app_l by exact Hlt.
    split; [exact Hu|]. split; [reflexivity|]. split; [exact Hid|].
    split; [exact Hk|]. split.
    + intros j v Hv Hne. simpl in Hv.
      apply lookup_app_Some in Hv as [Hv|[_ Hv]]; [exact (Halone j v Hv Hne)|].
      apply list_lookup_singleton_Some in Hv as [_ <-]. simpl.
      exact (Hdrop name now eq_refl).
    + unfold live in *. simpl. rewrite Eo in *. intros Hl.
      split; [exact Hl|]. specialize (Hj Hl).
      unfold entryOf, setEntry in *. simpl.
      rewrite lookup_insert_ne; [exact Hj|].
      exact (Hdrop name now eq_refl).
  - destruct (uploads h !! j) as [v|] eqn:Ev; [|discriminate].
    destruct (step c ev (closure v) _) as [[l' p']|] eqn:Es; [|discriminate].
    injection H as <-. simpl.
    destruct (decide (j = i)) as [->|Hne].
    + (* a step of the upload itself *)
      rewrite Hu in Ev. injection Ev as <-.
      destruct (step_fileId _ _ _ _ _ _ Es Hph) as [Hid' _].
      eexists. rewrite list_lookup_insert_eq by exact Hlt.
      split; [reflexivity|]. simpl. split; [reflexivity|].
      split; [congruence|].
      split; [exact (HK _ _ _ _ _ (Hown ev eq_refl) Es Hph Hid Hk)|].
      split.
      * intros j v Hv Hne. simpl in Hv.
        rewrite list_lookup_insert_ne in Hv by congruence.
        exact (Halone j v Hv Hne).
      * unfold live at 1. simpl. intros Hl.
        apply andb_true_iff in Hl as [Hl1 Hl2].
        apply andb_true_iff in Hl1 as [Ho _].
        assert (El : live h u = true)
          by (unfold live; rewrite Ho, Hl2; reflexivity).
        split; [exact El|]. rewrite El in Es |- *.
        exact (HJ _ _ _ _ _ (Hown ev eq_refl) Es Hph Hid Hk (Hj El)).
    + (* a step of another upload *)
      exists u. rewrite list_lookup_insert_ne by congruence.
      split; [exact Hu|]. split; [reflexivity|]. split; [exact Hid|].
      split; [exact Hk|].
      destruct (Hwf j v Ev) as (Hphv & _).
      destruct (step_fileId _ _ _ _ _ _ Es Hphv) as [Hidv _].
      pose proof (Halone j v Ev Hne) as Hkv.
      split.
      * intros j' v' Hv' Hne'. simpl in Hv'.
        destruct (decide (j' = j)) as [->|Hjj].
        -- rewrite list_lookup_insert_eq in Hv'
             by (eapply lookup_lt_Some; eassumption).
           injection Hv' as <-. simpl. congruence.
        -- rewrite list_lookup_insert_ne in Hv' by congruence.
           exact (Halone j' v' Hv' Hne').
      * unfold live at 1. simpl. intros Hl.
        apply andb_true_iff in Hl as [Hl1 Hl2].
        apply andb_true_iff in Hl1 as [Ho _].
        assert (El : live h u = true)
          by (unfold live; rewrite Ho, Hl2; reflexivity).
        split; [exact El|]. specialize (Hj El).
        destruct (live h v); simpl.
        -- rewrite (step_frame _ _ _ _ _ _ key Es); [exact Hj | congruence].
        -- exact Hj.
  - (* the component is unmounted *)
    destruct (isOpen h); [|discriminate]. injection H as <-. simpl.
    exists u. repeat (split; [assumption || reflexivity|]).
    unfold live. simpl. discriminate.
  - (* the component is mounted again *)
    destruct (isOpen h); [discriminate|]. injection H as <-. simpl.
    exists u. repeat (split; [assumption || reflexivity|]).
    unfold live. simpl. intros Hl. apply Nat.eqb_eq in Hl. lia.
Qed.

Lemma hostRun_invariant c key i (allowed : @Event Metadata -> Prop)
    (K : Loop -> Prop) (J : Loop -> option (@ProcessingStatus Metadata) -> Prop) :
  (forall ev l p l' p',
     allowed ev -> step c ev l p = Some (l', p') -> phase l <> Idle ->
     fileId l = key -> K l -> K l') ->
  (forall ev l p l' p',
     allowed ev -> step c ev l p = Some (l', p') -> phase l <> Idle ->
     fileId l = key -> K l -> J l (entryOf key p) ->
     J l' (entryOf key p')) ->
  forall es h u,
    freshDrops key es -> (forall ev, In (Of i ev) es -> allowed ev) ->
    wellFormed h -> ownKey key i h ->
    uploads h !! i = Some u -> fileId (closure u) = key -> K (closure u) ->
    (live h u = true -> J (closure u) (entryOf key (hostPage h))) ->
    exists u',
      uploads (hostRun c es h) !! i = Some u' /\ home u' = home u /\
      fileId (closure u') = key /\ K (closure u') /\
      ownKey key i (hostRun c es h) /\
      (live (hostRun c es h) u' = true ->
       live h u = true /\
       J (closure u') (entryOf key (hostPage (hostRun c es h)))).
Proof.
  intros HK HJ es.
  induction es as [|e es IH]; intros h u Hfresh Hown Hwf Halone Hu Hid Hk Hj;
    simpl.
  - exists u. split; [exact Hu|]. split; [reflexivity|].
    split; [exact Hid|]. split; [exact Hk|]. split; [exact Halone|].
    intros Hl. split; [exact Hl | exact (Hj Hl)].
  - assert (Hfresh' : freshDrops key es).
    { intros name now Hin. apply Hfresh. right. exact Hin. }
    assert (Hown' : forall ev, In (Of i ev) es -> allowed ev).
    { intros ev Hin. apply Hown. right. exact Hin. }
    destruct (hostStep c e h) as [h1|] eqn:E; [|eauto].
    destruct (hostStep_invariant c key i allowed K J HK HJ e h h1 u E)
      as (u1 & Hu1 & Hh1 & Hid1 & Hk1 & Halone1 & Hj1); try assumption.
    { intros name now ->. apply Hfresh. left. reflexivity. }
    { intros ev ->. apply Hown. left. reflexivity. }
    destruct (IH h1 u1 Hfresh' Hown' (wellFormed_step _ _ _ _ E Hwf) Halone1
                Hu1 Hid1 Hk1) as (u' & Hu' & Hh' & Hid' & Hk' & Halone' & Hj').
    { intros Hl. exact (proj2 (Hj1 Hl)). }
    exists u'. split; [exact Hu'|]. split; [congruence|].
    split; [exact Hid'|]. split; [exact Hk'|]. split; [exact Halone'|].
    intros Hl. destruct (Hj' Hl) as [Hl1 HJ']. split; [|exact HJ'].
    exact (proj1 (Hj1 Hl1)).
Qed.

(** An upload that is over reacts to nothing. *)
Lemma hostStep_Stopped c i ev h u :
  uploads h !! i = Some u -> phase (closure u) = Stopped ->
  hostStep c (Of i ev) h = None.
Proof.
  intros Hu Hph. simpl. rewrite Hu. rewrite step_Stopped by exact Hph.
  reflexivity.
Qed.

Lemma hostRun_Stopped c es h i u :
  wellFormed h -> uploads h !! i = Some u -> phase (closure u) = Stopped ->
  uploads (hostRun c es h) !! i = Some u.
Proof.
  revert h. induction es as [|e es IH]; intros h Hwf Hu Hph; simpl;
    [exact Hu|].
  destruct (hostStep c e h) as [h'|] eqn:E; [|auto].
  destruct (hostStep_keeps _ _ _ _ _ _ E Hwf Hu) as (u' & Hu' & _ & _ & _ & Hsame).
  rewrite Hsame in Hu'.
  - exact (IH h' (wellFormed_step _ _ _ _ E Hwf) Hu' Hph).
  - intros ev ->. rewrite (hostStep_Stopped c i ev h u Hu Hph) in E.
    discriminate.
Qed.

Lemma visible_live key h u :
  live h u = true -> visible key h = entryOf key (hostPage h).
Proof.
  unfold live, visible. intros H. apply andb_true_iff in H as [-> _].
  reflexivity.
Qed.

Lemma succ_eqb (n : nat) : (S n =? n) = false.
Proof. apply Nat.eqb_neq. lia. Qed.

(** The timer of the grace period, due: the entry is removed, the callback
    called and the component unmounted. *)
Lemma hostStep_Grace c i t h u :
  uploads h !! i = Some u -> phase (closure u) = Grace ->
  (due (closure u) <= t)%N ->
  exists h',
    hostStep c (Of i (Tick t)) h = Some h' /\
    notified (hostPage h') = S (notified (hostPage h)) /\
    isOpen h' = false /\
    (live h u = true -> entryOf (fileId (closure u)) (hostPage h') = None) /\
    uploads h' !! i =
      Some {| home := home u;
              closure := withPhase Stopped (attempts (closure u))
                           (due (closure u)) (closure u) |}.
Proof.
  intros Hu Hph Hdue. apply N.leb_le in Hdue.
  pose proof (lookup_lt_Some _ _ _ Hu) as Hlt.
  unfold hostStep. rewrite Hu. unfold step. rewrite Hph, Hdue.
  unfold graceTimeout, onFileUploaded, setUploadingFiles, gone.
  destruct (live h u); cbn [notified uploadingFiles];
    rewrite succ_eqb; eexists; (split; [reflexivity|]);
    cbn [hostPage notified isOpen uploads uploadingFiles];
    (split; [reflexivity|]); (split; [apply andb_false_r|]);
    (split; [|apply list_lookup_insert_eq; exact Hlt]).
  - intros _. unfold entryOf, removeEntry. cbn [uploadingFiles].
    apply lookup_delete_eq.
  - discriminate.
Qed.


(** C7, amended.  When a status fetch of an upload whose key no other
    upload shares returns [ready] at time [now], the fetched entry is shown
    and the callback is not called.  Until the timer armed for [now + 3000]
    fires the upload does nothing, whatever else happens, and its entry
    stays as it is for as long as the instance of the component is mounted.
    When the timer fires, at [now + 3000] or later, the entry is removed
    and the callback is called once, which unmounts the component; the
    upload never does anything afterwards. *)
Theorem ready_grace_period c es0 p0 i u now s :
  let h := hostRun c es0 (hostOf p0) in
  let key := fileId (closure u) in
  let readyEntry := fetchedEntry c s (fileName (closure u)) in
  uploads h !! i = Some u -> phase (closure u) = AwaitStatus ->
  live h u = true -> ownKey key i h -> status s = ready ->
  exists h1 u1,
    hostStep c (Of i (Polled now (FetchOk s))) h = Some h1 /\
    uploads h1 !! i = Some u1 /\
    phase (closure u1) = Grace /\ due (closure u1) = (now + 3000)%N /\
    visible key h1 = Some readyEntry /\ status readyEntry = ready /\
    notified (hostPage h1) = notified (hostPage h) /\
    forall es,
      freshDrops key es ->
      (forall t, In (Of i (Tick t)) es -> (t < now + 3000)%N) ->
      let h2 := hostRun c es h1 in
      uploads h2 !! i = Some u1 /\
      (live h2 u1 = true -> visible key h2 = Some readyEntry) /\
      forall t, (now + 3000 <= t)%N ->
        exists h3 u3,
          hostStep c (Of i (Tick t)) h2 = Some h3 /\
          notified (hostPage h3) = S (notified (hostPage h2)) /\
          isOpen h3 = false /\
          (live h2 u1 = true -> entryOf key (hostPage h3) = None) /\
          uploads h3 !! i = Some u3 /\ phase (closure u3) = Stopped /\
          forall es' ev, hostStep c (Of i ev) (hostRun c es' h3) = None.
Proof.
  intros h key readyEntry Hu Hph Hlive Halone Hs.
  assert (Hwf : wellFormed h) by apply wellFormed_run, wellFormed_hostOf.
  set (l1 := withPhase Grace (attempts (closure u)) (now + graceDelay)%N
               (closure u)).
  set (u1 := {| home := home u; closure := l1 |}).
  set (p1 := setUploadingFiles (setEntry key readyEntry) (hostPage h)).
  set (h1 := {| isOpen := isOpen h; instance := instance h; hostPage := p1;
                uploads := <[i := u1]> (uploads h) |}).
  assert (Hstep : hostStep c (Of i (Polled now (FetchOk s))) h = Some h1).
  { simpl. rewrite Hu, Hlive. unfold step. rewrite Hph.
    unfold poll_resume. rewrite Hs. simpl.
    rewrite Nat.eqb_refl. simpl. rewrite andb_true_r. reflexivity. }
  assert (Hlt : i < length (uploads h)) by (eapply lookup_lt_Some; eassumption).
  assert (Hu1 : uploads h1 !! i = Some u1)
    by (simpl; apply list_lookup_insert_eq; exact Hlt).
  assert (Hlive1 : live h1 u1 = true) by exact Hlive.
  assert (Hwf1 : wellFormed h1) by (eapply wellFormed_step; eassumption).
  assert (Halone1 : ownKey key i h1).
  { intros j v Hv Hne. simpl in Hv.
    rewrite list_lookup_insert_ne in Hv by congruence.
    exact (Halone j v Hv Hne). }
  assert (Hentry1 : entryOf key (hostPage h1) = Some readyEntry).
  { unfold entryOf, h1, p1, setEntry. simpl. apply lookup_insert_eq. }
  exists h1, u1. split; [exact Hstep|]. split; [exact Hu1|].
  split; [reflexivity|]. split; [reflexivity|].
  split; [rewrite (visible_live key h1 u1 Hlive1); exact Hentry1|].
  split; [unfold readyEntry; rewrite status_fetchedEntry; exact Hs|].
  split; [reflexivity|].
  intros es Hfresh Hticks h2.
  (* the upload waits: none of its events before the timer is due moves it *)
  assert (Hwait : forall ev l p l' p',
            (forall t, ev = Tick t -> (t < now + 3000)%N) ->
            step c ev l p = Some (l', p') -> l = l1 -> False).
  { intros ev l p l' p' Hev Hst ->. unfold step in Hst. simpl in Hst.
    destruct ev as [name t|r|t r|t]; try discriminate.
    specialize (Hev t eq_refl). unfold graceDelay in Hst.
    destruct (now + 3000 <=? t)%N eqn:E; [|discriminate].
    apply N.leb_le in E. lia. }
  destruct (hostRun_invariant c key i
              (fun ev => forall t, ev = Tick t -> (t < now + 3000)%N)
              (fun l => l = l1) (fun _ x => x = Some readyEntry))
    with (es := es) (h := h1) (u := u1)
    as (u2 & Hu2 & Hh2 & _ & Hk2 & Halone2 & Hj2); try assumption;
    try reflexivity.
  { intros ev l p l' p' Hev Hst _ _ Hl. exfalso. eauto. }
  { intros ev l p l' p' Hev Hst _ _ Hl. exfalso. eauto. }
  { intros ev Hin t ->. exact (Hticks t Hin). }
  { intros _. exact Hentry1. }
  fold h2 in Hu2, Halone2, Hj2.
  assert (Eu : u2 = u1).
  { destruct u2 as [hm cl]. simpl in *. subst hm cl. reflexivity. }
  subst u2.
  assert (Hwf2 : wellFormed h2) by apply wellFormed_run, Hwf1.
  split; [exact Hu2|]. split.
  { intros Hl. rewrite (visible_live key h2 u1 Hl). exact (proj2 (Hj2 Hl)). }
  intros t Ht.
  destruct (hostStep_Grace c i t h2 u1 Hu2 eq_refl)
    as (h3 & Hs3 & Hn3 & Ho3 & He3 & Hu3).
  { unfold u1, l1, graceDelay. simpl. exact Ht. }
  set (u3 := {| home := home u1;
                closure := withPhase Stopped (attempts (closure u1))
                             (due (closure u1)) (closure u1) |}) in Hu3.
  exists h3, u3. split; [exact Hs3|]. split; [exact Hn3|].
  split; [exact Ho3|]. split; [exact He3|]. split; [exact Hu3|].
  split; [reflexivity|].
  intros es' ev.
  assert (Hwf3 : wellFormed h3) by (eapply wellFormed_step; eassumption).
  apply (hostStep_Stopped c i ev _ u3); [|reflexivity].
  apply hostRun_Stopped; [exact Hwf3 | exact Hu3 | reflexivity].
Qed.

End HostedFacts.



(** C7 as stated fails, in two ways.  Two files of the same name dropped
    in the same millisecond share their entry: when the status fetch of the
    second throws, 100 ms after the fetch of the first has returned
    [ready], the entry that showed [ready] shows [error], with the
    component still mounted and the callback not called.  And two files
    with keys of their own: the fetch of "b.pdf" returns [ready] at 3000,
    and 1500 ms later the timer of "a.pdf", whose fetch returned [ready] at
    1500, calls the callback; the dashboard unmounts the component and the
    entry of "b.pdf" is no longer shown. *)
Lemma grace_period_cut_short :
  let ready_at_1500 :=
    hostRun (Metadata := unit) FileUpload
      [ Drop "rapport.pdf" 1000; Drop "rapport.pdf" 1000;
        Of 0 (Uploaded accepted); Of 1 (Uploaded accepted);
        Of 0 (Polled 1500 (okStatus ready "pret")) ]
      (hostOf noPage) in
  let h := hostRun FileUpload [Of 1 (Polled 1600 FetchThrow)] ready_at_1500 in
  let ready_at_3000 :=
    hostRun (Metadata := unit) FileUpload
      [ Drop "a.pdf" 1000; Drop "b.pdf" 1001;
        Of 0 (Uploaded accepted); Of 1 (Uploaded accepted);
        Of 0 (Polled 1500 (okStatus ready "pret"));
        Of 1 (Polled 3000 (okStatus ready "pret")) ]
      (hostOf noPage) in
  let h' := hostRun FileUpload [Of 0 (Tick 4500)] ready_at_3000 in
  ((status <$> visible "rapport.pdf-1000" ready_at_1500) = Some ready /\
   (phase <$> (closure <$> uploads h !! 0)) = Some Grace /\
   (due <$> (closure <$> uploads h !! 0)) = Some 4500%N /\
   (status <$> visible "rapport.pdf-1000" h) = Some error /\
   isOpen h = true /\ notified (hostPage h) = 0) /\
  ((status <$> visible "b.pdf-1001" ready_at_3000) = Some ready /\
   (phase <$> (closure <$> uploads h' !! 1)) = Some Grace /\
   (due <$> (closure <$> uploads h' !! 1)) = Some 6000%N /\
   visible "b.pdf-1001" h' = None /\
   isOpen h' = false /\ notified (hostPage h') = 1).
Proof. vm_compute. repeat split; reflexivity. Qed.

(** The second status fetch of "policy.pdf" answers [ready] at 3600, while
    "notes.txt", dropped later, is being uploaded: the entry is shown until
    the timer fires at 6600, which removes it, calls the callback and
    unmounts the component. *)
Lemma ready_grace_period_witness :
  let es0 := [ Drop "policy.pdf" 1000; Of 0 (Uploaded accepted);
               Of 0 (Polled 1500 (okStatus processing "en cours"));
               Drop "notes.txt" 2000; Of 0 (Tick 3500) ] in
  let h := hostRun (Metadata := unit) FileUpload es0 (hostOf noPage) in
  let es := [ Of 1 (Uploaded accepted); Of 0 (Tick 6599);
              Of 1 (Polled 5000 FetchThrow) ] in
  exists h1 h3,
    hostStep FileUpload (Of 0 (Polled 3600 (okStatus ready "pret"))) h
      = Some h1 /\
    (status <$> visible "policy.pdf-1000" (hostRun FileUpload es h1))
      = Some ready /\
    hostStep FileUpload (Of 0 (Tick 6600)) (hostRun FileUpload es h1)
      = Some h3 /\
    entryOf "policy.pdf-1000" (hostPage h3) = None /\
    notified (hostPage h3) = 1 /\ isOpen h3 = false.
Proof.
  intros es0 h es.
  set (u := {| home := 0;
               closure := {| phase := AwaitStatus;
                             fileId := "policy.pdf-1000";
                             fileName := "policy.pdf";
                             documentId := "doc123"; attempts := 1;
                             due := 3500; fetches := 2 |} |}).
  assert (Hu : uploads h !! 0 = Some u) by (vm_compute; reflexivity).
  destruct (ready_grace_period (Metadata := unit) FileUpload es0 noPage 0 u
              3600%N
              {| document_id := Some "doc123"; status := ready;
                 message := "pret"; filename := None; metadata := None |})
    as (h1 & u1 & Hs1 & Hu1 & _ & _ & _ & _ & _ & Hrest).
  - exact Hu.
  - reflexivity.
  - reflexivity.
  - intros j v Hv Hne. destruct j as [|[|j]]; [congruence| |].
    + vm_compute in Hv. injection Hv as <-. discriminate.
    + vm_compute in Hv. discriminate.
  - reflexivity.
  - destruct (Hrest es) as (Hu2 & Hshown & Hfire).
    + intros name now [H|[H|[H|[]]]]; discriminate.
    + intros t [H|[H|[H|[]]]]; try discriminate.
      injection H as <-. reflexivity.
    + destruct (Hfire 6600%N) as (h3 & u3 & Hs3 & Hn3 & Ho3 & He3 & _);
        [discriminate|].
      assert (Hlive : live (hostRun FileUpload es h1) u1 = true).
      { vm_compute in Hs1. injection Hs1 as <-.
        vm_compute in Hu1. injection Hu1 as <-. reflexivity. }
      exists h1, h3. split; [exact Hs1|].
      split; [exact (f_equal (fmap status) (Hshown Hlive))|].
      split; [exact Hs3|].
      split; [exact (He3 Hlive)|].
      split; [|exact Ho3].
      rewrite Hn3. vm_compute in Hs1. injection Hs1 as <-. reflexivity.
Defined.

(** ** EmployeeDashboard *)

Lemma sessions_deleteSession_resume current sessionId d :
  sessions (deleteSession_resume current sessionId (Some tt) d) =
  List.filter (fun s => negb (bool_decide (session_id s = sessionId)))
    (sessions d).
Proof.
  unfold deleteSession_resume. destruct (isCurrent current sessionId);
    reflexivity.
Qed.

Lemma isCurrent_true current sessionId :
  isCurrent current sessionId = true <->
  (session_id <$> current) = Some sessionId.
Proof.
  unfold isCurrent. destruct current as [s|]; simpl.
  - rewrite bool_decide_eq_true. split; congruence.
  - split; discriminate.
Qed.




(** C3, amended.  A change of the documents makes the dashboard fetch
    the document list again and, when that fetch succeeds, take its result
    as the list; the session list is not fetched again after a session is
    created or deleted: the created session is put in front of the list
    held, and the deleted one is filtered out of it. *)
Theorem lists_after_mutations {Server : Type} {api : ApiService Server}
    (srv : Server) (d : Dashboard) :
  (forall fetched,
     documents (onDocumentChange_resume (Some fetched) d) = fetched) /\
  (forall documentId srv' fetched,
     deleteDocument documentId srv = (Some tt, srv') ->
     getDocuments srv' = Some fetched ->
     documents (deletePersonalDocument documentId srv d).2 = fetched) /\
  (forall newSession srv',
     createChatSession srv = (Some newSession, srv') ->
     sessions (createNewChat srv d).2 = newSession :: sessions d) /\
  (forall sessionId srv',
     deleteChatSession sessionId srv = (Some tt, srv') ->
     sessions (deleteSession sessionId srv d).2 =
     List.filter (fun s => negb (bool_decide (session_id s = sessionId)))
       (sessions d)).
Proof.
  split; [|split; [|split]].
  - intros fetched. reflexivity.
  - intros documentId srv' fetched Hdel Hget.
    unfold deletePersonalDocument. rewrite Hdel. simpl.
    unfold onDocumentChange_resume. rewrite Hget. reflexivity.
  - intros newSession srv' Hnew. unfold createNewChat. rewrite Hnew.
    reflexivity.
  - intros sessionId srv' Hdel. unfold deleteSession. rewrite Hdel. simpl.
    apply sessions_deleteSession_resume.
Qed.

(** Deleting a document and creating a session against the example server,
    from a dashboard that holds nothing yet. *)
Lemma lists_after_mutations_witness :
  documents (deletePersonalDocument "doc1" sampleServer mounted).2
    = [sampleDocument 2] /\
  sessions (createNewChat sampleServer mounted).2 = [freshSession 2].
Proof.
  destruct (lists_after_mutations sampleServer mounted)
    as (_ & Hdoc & Hnew & _).
  split.
  - apply (Hdoc "doc1" (deleteDocument "doc1" sampleServer).2);
      vm_compute; reflexivity.
  - apply (Hnew (freshSession 2) (createChatSession sampleServer).2).
    vm_compute. reflexivity.
Defined.

(** C3 as stated fails: a dashboard that has not seen a session created
    elsewhere (here by a second dashboard of the same user) keeps, after
    creating its own, a list that a fetch would not return. *)
Lemma createNewChat_keeps_held_list :
  let first := loadSessions emptyServer mounted in
  let srv1 := (createNewChat emptyServer mounted).1 in
  let srv2 := (createNewChat srv1 first).1 in
  let d := (createNewChat srv1 first).2 in
  sessions d = [freshSession 2] /\
  getChatSessions srv2 = Some [freshSession 2; freshSession 1] /\
  Some (sessions d) <> getChatSessions srv2.
Proof.
  vm_compute. split; [reflexivity|]. split; [reflexivity|]. discriminate.
Qed.

(** ** DocumentList *)

(** C9. A confirmed [handleDelete] puts the document id into
    [deletingIds] before it calls the API; when the call settles, with
    success or with an exception, the id is taken out again whatever
    happened to the set meanwhile, and no other id enters or leaves.
    Without confirmation nothing is done. *)
Theorem handleDelete_releases_id (documentId : string)
    (s0 : DocumentListState) :
  (handleDelete_call true documentId s0).2 = true /\
  documentId ∈ deletingIds (handleDelete_call true documentId s0).1 /\
  (forall (r : option unit) (s : DocumentListState),
     let s' := handleDelete_resume documentId r s in
     (documentId ∉ deletingIds s') /\
     forall x, x <> documentId ->
               ((x ∈ deletingIds s') <-> (x ∈ deletingIds s))) /\
  handleDelete_call false documentId s0 = (s0, false).
Proof.
  split; [reflexivity|]. split.
  { simpl. apply elem_of_union_r, elem_of_singleton. reflexivity. }
  split; [|reflexivity].
  intros r s s'. subst s'. unfold handleDelete_resume.
  destruct r; simpl; (split; [|intros x Hx]);
    rewrite elem_of_difference, elem_of_singleton; tauto.
Qed.

(** Deleting "doc1" fails while "doc2" is being deleted too. *)
Lemma handleDelete_releases_id_witness :
  let s0 := {| deletingIds := {[ "doc2" ]}; deletedCalls := 0; alerts := 0 |} in
  let s1 := (handleDelete_call true "doc1" s0).1 in
  let s2 := handleDelete_resume "doc1" None s1 in
  ("doc1" ∈ deletingIds s1) /\ ("doc1" ∉ deletingIds s2) /\
  ("doc2" ∈ deletingIds s2).
Proof.
  intros s0 s1 s2.
  destruct (handleDelete_releases_id "doc1" s0) as (_ & Hin & Hout & _).
  destruct (Hout None s1) as [Hgone Hkeep].
  split; [exact Hin|]. split; [exact Hgone|].
  apply Hkeep; [discriminate|].
  subst s1 s0. simpl. apply elem_of_union_l. apply elem_of_singleton.
  reflexivity.
Defined.

(** ** Sidebar *)

Lemma startsWith_spec (s t : Text) :
  startsWith s t = true <-> exists rest, s = t ++ rest.
Proof.
  revert s. induction t as [|b t IH]; intros s; simpl.
  - split; [intros _; exists s; reflexivity | reflexivity].
  - destruct s as [|a s].
    + split; [discriminate | intros [rest H]; discriminate].
    + rewrite andb_true_iff, bool_decide_eq_true, IH. split.
      * intros [-> [rest ->]]. exists rest. reflexivity.
      * intros [rest H]. injection H as -> ->.
        split; [reflexivity | exists rest; reflexivity].
Qed.

Lemma includes_unfold (s t : Text) :
  includes s t =
  startsWith s t ||
  match s with [] => false | _ :: s' => includes s' t end.
Proof. destruct s; reflexivity. Qed.

(** [includes] finds exactly the occurrences of [t] inside [s]. *)
Lemma includes_spec (s t : Text) : includes s t = true <-> contains s t.
Proof.
  unfold contains. split.
  - induction s as [|a s IH]; rewrite includes_unfold, orb_true_iff.
    + intros [H|H]; [|discriminate].
      apply startsWith_spec in H as [rest ->]. exists [], rest. reflexivity.
    + intros [H|H].
      * apply startsWith_spec in H as [rest ->]. exists [], rest. reflexivity.
      * destruct (IH H) as (before & after & ->).
        exists (a :: before), after. reflexivity.
  - intros (before & after & ->).
    induction before as [|a before IH]; rewrite includes_unfold, orb_true_iff.
    + left. apply startsWith_spec. exists after. reflexivity.
    + right. exact IH.
Qed.

Lemma includes_empty (s : Text) : includes s [] = true.
Proof. apply includes_spec. exists [], s. reflexivity. Qed.

Section SidebarFacts.

Context {data : CaseData}.

Lemma plain_inv (x : N) :
  plain x = true ->
  isLeadSurrogate x = false /\ (x =? 0x3A3)%N = false /\
  lowercaseMapping x = [lowerUnit x] /\ (lowerUnit x <? 0x10000)%N = true.
Proof.
  unfold plain, lowerUnit. rewrite !andb_true_iff, !negb_true_iff.
  intros [[[Hl _] Hs] Hm].
  destruct (lowercaseMapping x) as [|y [|z rest]]; try discriminate. auto.
Qed.

Lemma plainText_forallb (s : Text) : forallb plain s = true -> plainText s.
Proof.
  induction s as [|x s IH]; simpl; [constructor|].
  rewrite andb_true_iff. intros [Hx Hs]. constructor; [exact Hx | exact (IH Hs)].
Qed.

Lemma stringToCodePoints_plain (s : Text) :
  plainText s -> stringToCodePoints s = s.
Proof.
  induction 1 as [|x s Hx Hs IH]; [reflexivity|].
  apply plain_inv in Hx as (Hl & _).
  change (stringToCodePoints (x :: s))
    with (match s with
          | v :: rest' =>
              if isLeadSurrogate x && isTrailSurrogate v
              then (0x10000 + (x - 0xD800) * 0x400 + (v - 0xDC00))%N
                     :: stringToCodePoints rest'
              else x :: stringToCodePoints s
          | [] => [x]
          end).
  rewrite Hl. destruct s as [|v rest]; [reflexivity|]. simpl andb.
  rewrite IH. reflexivity.
Qed.

Lemma lowerFrom_plain (before s : list N) :
  plainText s -> lowerFrom before s = map lowerUnit s.
Proof.
  intros H. revert before. induction H as [|x s Hx Hs IH]; intros before;
    [reflexivity|].
  apply plain_inv in Hx as (_ & Hsig & Hm & _).
  simpl. rewrite Hsig, Hm, IH. reflexivity.
Qed.

Lemma units_plain (s : list N) :
  plainText s -> flat_map codePointToUnits (map lowerUnit s) = map lowerUnit s.
Proof.
  induction 1 as [|x s Hx Hs IH]; [reflexivity|].
  apply plain_inv in Hx as (_ & _ & _ & Hlt).
  simpl. unfold codePointToUnits at 1. rewrite Hlt, IH. reflexivity.
Qed.

(** A plain text is lowered code unit by code unit. *)
Lemma toLowerCase_plain (s : Text) :
  plainText s -> toLowerCase s = map lowerUnit s.
Proof.
  intros H. unfold toLowerCase.
  rewrite stringToCodePoints_plain, lowerFrom_plain, units_plain by exact H.
  reflexivity.
Qed.

(** For plain texts the filter looks for the term up to case. *)
Lemma lowerContains_plain (text term : Text) :
  plainText text -> plainText term ->
  lowerContains text term <-> containsIgnoringCase text term.
Proof.
  intros Htext Hterm. unfold lowerContains, containsIgnoringCase.
  rewrite (toLowerCase_plain text Htext), (toLowerCase_plain term Hterm).
  split.
  - intros (x & y & H).
    apply map_eq_app in H as (before & rest & -> & _ & H).
    apply map_eq_app in H as (part & after & -> & H & _).
    exists before, part, after. split; [reflexivity|].
    rewrite toLowerCase_plain; [exact H|].
    unfold plainText in *. rewrite !Forall_app in Htext. tauto.
  - intros (before & part & after & -> & H).
    exists (map lowerUnit before), (map lowerUnit after).
    rewrite !map_app. rewrite <- H, toLowerCase_plain; [reflexivity|].
    unfold plainText in *. rewrite !Forall_app in Htext. tauto.
Qed.

Lemma mentions_plain (searchTerm : Text) (session : ChatSession) :
  plainSession session -> plainText searchTerm ->
  mentions searchTerm session <-> mentionsIgnoringCase searchTerm session.
Proof.
  intros [Htitle Hpv] Hterm. unfold mentions, mentionsIgnoringCase.
  rewrite (lowerContains_plain _ _ Htitle Hterm).
  split; (intros [H|(pv & E & H)]; [left; exact H|]); right; exists pv;
    (split; [exact E|]);
    apply (lowerContains_plain pv searchTerm (Hpv pv E) Hterm); exact H.
Qed.

Lemma matchesSearch_spec (searchTerm : Text) (session : ChatSession) :
  matchesSearch searchTerm session = true <-> mentions searchTerm session.
Proof.
  unfold matchesSearch, mentions, lowerContains.
  rewrite orb_true_iff, includes_spec. unfold contains.
  destruct (preview session) as [pv|].
  - rewrite includes_spec. unfold contains. split; intros [H|H]; auto.
    + right. exists pv. auto.
    + right. destruct H as (pv' & [= <-] & H). exact H.
  - split; intros [H|H]; auto; [discriminate|].
    destruct H as (pv' & Hpv & _). discriminate.
Qed.

(** C10, amended.  The sidebar keeps a session exactly when its lowered
    title, or its lowered preview if it has one, has the lowered search
    term as a part; for a plain search term and a session whose title and
    preview are plain, that is: when the title or the preview contains the
    search term up to case.  The sessions kept come in the order of the
    list, each as often as it is in the list; and the empty search term
    keeps them all. *)
Theorem filteredSessions_spec (sessions : list ChatSession)
    (searchTerm : Text) :
  (forall s, In s (filteredSessions sessions searchTerm) <->
             In s sessions /\ mentions searchTerm s) /\
  (plainText searchTerm ->
   forall s, plainSession s ->
     (In s (filteredSessions sessions searchTerm) <->
      In s sessions /\ mentionsIgnoringCase searchTerm s)) /\
  filteredSessions [] searchTerm = [] /\
  (forall s rest,
     (mentions searchTerm s ->
      filteredSessions (s :: rest) searchTerm =
        s :: filteredSessions rest searchTerm) /\
     (~ mentions searchTerm s ->
      filteredSessions (s :: rest) searchTerm =
        filteredSessions rest searchTerm)) /\
  filteredSessions sessions searchTerm `sublist_of` sessions /\
  filteredSessions sessions [] = sessions.
Proof.
  split; [|split; [|split; [|split; [|split]]]].
  - intros s. unfold filteredSessions.
    rewrite filter_In, matchesSearch_spec. reflexivity.
  - intros Hterm s Hs. unfold filteredSessions.
    rewrite filter_In, matchesSearch_spec, (mentions_plain _ _ Hs Hterm).
    reflexivity.
  - reflexivity.
  - intros s rest. unfold filteredSessions. simpl.
    destruct (matchesSearch searchTerm s) eqn:E.
    + split; [reflexivity|]. intros H. exfalso. apply H.
      apply matchesSearch_spec. exact E.
    + split; [|reflexivity]. intros H. apply matchesSearch_spec in H.
      congruence.
  - unfold filteredSessions.
    induction sessions as [|s rest IH]; simpl; [constructor|].
    destruct (matchesSearch searchTerm s);
      [apply sublist_skip | apply sublist_cons]; exact IH.
  - unfold filteredSessions.
    induction sessions as [|s rest IH]; simpl; [reflexivity|].
    unfold matchesSearch at 1.
    change (toLowerCase []) with (@nil N).
    rewrite includes_empty. simpl. rewrite IH. reflexivity.
Qed.

End SidebarFacts.

(** Searching "rgpd" among two sessions: the one kept has a title that
    contains the term up to case. *)
Lemma filteredSessions_spec_witness :
  filteredSessions (data := latinGreek)
    [sampleSession 2 "Politique RGPD"; sampleSession 1 "Audit"]
    (textOf "rgpd")
  = [sampleSession 2 "Politique RGPD"] /\
  mentionsIgnoringCase (data := latinGreek) (textOf "rgpd")
    (sampleSession 2 "Politique RGPD").
Proof.
  assert (Hkept :
    filteredSessions (data := latinGreek)
      [sampleSession 2 "Politique RGPD"; sampleSession 1 "Audit"]
      (textOf "rgpd")
    = [sampleSession 2 "Politique RGPD"]).
  { destruct (filteredSessions_spec (data := latinGreek) [] (textOf "rgpd"))
      as (_ & _ & Hnil & Hcons & _).
    destruct (Hcons (sampleSession 2 "Politique RGPD")
                [sampleSession 1 "Audit"]) as [Hyes _].
    rewrite Hyes.
    - destruct (Hcons (sampleSession 1 "Audit") []) as [_ Hno].
      rewrite Hno, Hnil; [reflexivity|].
      intros Hm. apply matchesSearch_spec in Hm. vm_compute in Hm.
      discriminate.
    - left. exists (textOf "politique "), []. vm_compute. reflexivity. }
  split; [exact Hkept|].
  destruct (filteredSessions_spec (data := latinGreek)
              [sampleSession 2 "Politique RGPD"; sampleSession 1 "Audit"]
              (textOf "rgpd")) as (_ & Hplain & _).
  assert (Hterm : plainText (data := latinGreek) (textOf "rgpd"))
    by (apply plainText_forallb; vm_compute; reflexivity).
  assert (Hs : plainSession (data := latinGreek)
                 (sampleSession 2 "Politique RGPD")).
  { split; [apply plainText_forallb; vm_compute; reflexivity|].
    intros pv [= <-]. apply plainText_forallb. vm_compute. reflexivity. }
  destruct (Hplain Hterm _ Hs) as [Hin _].
  rewrite Hkept in Hin. exact (proj2 (Hin (or_introl eq_refl))).
Defined.

(** C10 as stated fails: lowering depends on the context, so a title can
    contain the search term, letter for letter, and be left out.  The
    title is [ΑΣ], the term [Σ]: the sigma that ends the title is lowered
    to the final sigma [ς], the sigma that stands alone to [σ]. *)
Lemma final_sigma_hides_title :
  let session :=
    {| session_id := "s1"; title := [0x391; 0x3A3]%N; preview := None;
       message_count := 0; updated_at := "" |} in
  let term : Text := [0x3A3%N] in
  contains (title session) term /\
  toLowerCase (data := latinGreek) (title session) = [0x3B1; 0x3C2]%N /\
  toLowerCase (data := latinGreek) term = [0x3C3%N] /\
  filteredSessions (data := latinGreek) [session] term = [].
Proof.
  intros session term. split.
  - exists [0x391%N], []. reflexivity.
  - vm_compute. repeat split; reflexivity.
Qed.

(** * Further properties *)

(** ** The upload components *)

Section MorePollerFacts.

Context {Metadata : Type}.

Implicit Types (c : Component) (l : Loop) (p : @Page Metadata)
  (ev : @Event Metadata) (evs : list (@Event Metadata)).

Ltac split_step H :=
  unfold step, handleFileUpload_call, handleFileUpload_resume, poll_resume,
    poll_call, graceTimeout, withPhase in H;
  repeat
    match type of H with
    | context [match ?x with _ => _ end] => destruct x eqn:?
    | context [if ?x then _ else _] => destruct x eqn:?
    end;
  try discriminate H; injection H as <- <-; simpl in *.

Lemma exec_dropped c name now evs p0 :
  exec c (Dropped name now :: evs) idle p0 =
  exec c evs (handleFileUpload_call c name now idle p0).1
    (handleFileUpload_call c name now idle p0).2.
Proof. reflexivity. Qed.

Lemma toBoolean_detailOr (detail : JsValue) (fallback : string) :
  fallback <> "" -> toBoolean (detailOr detail fallback) = true.
Proof.
  intros H. unfold detailOr. destruct (toBoolean detail) eqn:E; [exact E|].
  simpl. apply negb_true_iff, bool_decide_eq_false. exact H.
Qed.

Lemma msgUploadFailed_not_empty c : msgUploadFailed c <> "".
Proof. destruct c; discriminate. Qed.

Lemma detailOr_falsy (detail : JsValue) (fallback : string) :
  detail = JsUndefined \/ detail = JsNull \/ detail = JsString "" \/
  detail = JsBoolean false \/ (exists d, detail = JsNumber 0 d) ->
  detailOr detail fallback = JsString fallback.
Proof. intros [->|[->|[->|[->|[d ->]]]]]; reflexivity. Qed.

Lemma detailOr_truthy (detail : JsValue) (fallback : string) :
  (exists s, s <> "" /\ detail = JsString s) \/
  (exists json, detail = JsArray json) \/
  (exists json, detail = JsObject json) \/
  detail = JsBoolean true \/
  (exists n d, n <> 0%Z /\ detail = JsNumber n d) ->
  detailOr detail fallback = detail.
Proof.
  intros [(s & Hs & ->)|[(j & ->)|[(j & ->)|[->|(n & d & Hn & ->)]]]];
    try reflexivity; unfold detailOr, toBoolean.
  - rewrite bool_decide_eq_false_2 by exact Hs. reflexivity.
  - destruct (Z.eqb_spec n 0); [contradiction|reflexivity].
Qed.


Lemma tracked_step c key ev l p l' p' :
  step c ev l p = Some (l', p') -> phase l <> Idle -> fileId l = key ->
  tracked l (entryOf key p) -> tracked l' (entryOf key p').
Proof.
  intros H Hph Hk [Hin Herr]. unfold tracked, entryOf in *.
  split_step H; try contradiction; try congruence; subst key;
    unfold setEntry, markError, removeEntry;
    rewrite ?lookup_insert_eq, ?lookup_delete_eq;
    repeat match goal with
           | H : exists _, _ |- _ => destruct H as (? & ? & ?)
           end;
    (split;
     [ first [ exact I
             | eexists; split; [reflexivity|]; simpl;
               rewrite ?status_fetchedEntry; congruence
             | eauto ]
     | first [ reflexivity
             | intros y [= <-] Hs; simpl in Hs;
               rewrite ?status_fetchedEntry in Hs; congruence
             | intros y Hy Hs; specialize (Herr y Hy Hs); discriminate
             | intros y Hy; discriminate
             | auto ] ]).
Qed.

(** X2. For an upload whose key no other upload shares, and for as long
    as the instance of the component that started it is mounted: until the
    upload is over its entry is shown, with a status other than [error];
    an entry in [error] belongs to an upload that is over, and is shown as
    it is from then on. *)
Theorem entry_kept_while_mounted c (es0 es : list (@HostEvent Metadata)) p0
    name now :
  let h0 := hostRun c es0 (hostOf p0) in
  let key := makeFileId name now in
  let i := length (uploads h0) in
  let h := hostRun c (Drop name now :: es) h0 in
  isOpen h0 = true ->
  (forall j v, uploads h0 !! j = Some v -> fileId (closure v) <> key) ->
  freshDrops key es ->
  exists u,
    uploads h !! i = Some u /\ fileId (closure u) = key /\
    (live h u = true ->
     (phase (closure u) <> Stopped ->
      exists x, visible key h = Some x /\ status x <> error) /\
     (forall x, visible key h = Some x -> status x = error ->
        phase (closure u) = Stopped /\
        forall es', freshDrops key es' ->
          let h' := hostRun c es' h in
          uploads h' !! i = Some u /\
          (live h' u = true -> visible key h' = Some x))).
Proof.
  intros h0 key i h Hopen Hothers Hfresh.
  assert (Hwf0 : wellFormed h0) by apply wellFormed_run, wellFormed_hostOf.
  set (l1 := (handleFileUpload_call c name now idle (hostPage h0)).1).
  set (p1 := (handleFileUpload_call c name now idle (hostPage h0)).2).
  set (u1 := {| home := instance h0; closure := l1 |}).
  set (h1 := {| isOpen := true; instance := instance h0; hostPage := p1;
                uploads := uploads h0 ++ [u1] |}).
  assert (Hs1 : hostStep c (Drop name now) h0 = Some h1)
    by (simpl; rewrite Hopen; reflexivity).
  assert (Hh : h = hostRun c es h1)
    by (unfold h; cbn [hostRun]; rewrite Hs1; reflexivity).
  assert (Hwf1 : wellFormed h1) by (eapply wellFormed_step; eassumption).
  assert (Hu1 : uploads h1 !! i = Some u1).
  { simpl. rewrite lookup_app_r by (unfold i; lia).
    unfold i. rewrite Nat.sub_diag. reflexivity. }
  assert (Hown1 : ownKey key i h1).
  { intros j v Hv Hne. simpl in Hv.
    apply lookup_app_Some in Hv as [Hv|[Hge Hv]]; [exact (Hothers j v Hv)|].
    apply list_lookup_singleton_Some in Hv as [Hj _]. unfold i in Hne. lia. }
  destruct (hostRun_invariant c key i (fun _ => True) (fun _ => True)
              (fun l x => tracked (Metadata := Metadata) l x))
    with (es := es) (h := h1) (u := u1)
    as (u & Hu & _ & Hid & _ & Hown & Hj); try assumption; try reflexivity;
    try exact I.
  { intros ev l p l' p' _ Hst Hph Hk _ Ht.
    exact (tracked_step c key ev l p l' p' Hst Hph Hk Ht). }
  { intros _.
    assert (E : entryOf key p1 = Some (uploadingEntry c key name))
      by apply lookup_insert_eq.
    change (tracked l1 (entryOf key p1)). unfold tracked. rewrite E. simpl.
    split; [eexists; split; [reflexivity|]; discriminate|].
    intros x [= <-]. discriminate. }
  rewrite <- Hh in Hu, Hown, Hj.
  assert (Hwf : wellFormed h) by (rewrite Hh; apply wellFormed_run, Hwf1).
  exists u. split; [exact Hu|]. split; [exact Hid|].
  intros Hl. destruct (Hj Hl) as [_ [Hin Herr]].
  rewrite (visible_live key h u Hl). split.
  - intros Hph. destruct (phase (closure u)); try contradiction;
      try exact Hin; congruence.
  - intros x Hx Hst. pose proof (Herr x Hx Hst) as Hover.
    split; [exact Hover|]. intros es' Hfresh' h'.
    assert (Hu' : uploads h' !! i = Some u)
      by (apply hostRun_Stopped; assumption).
    split; [exact Hu'|]. intros Hl'.
    destruct (hostRun_invariant c key i (fun _ => True)
                (fun l => l = closure u) (fun _ y => y = Some x))
      with (es := es') (h := h) (u := u)
      as (u2 & Hu2 & _ & _ & _ & _ & Hj2); try assumption; try reflexivity.
    { intros ev l p l' p' _ Hs _ _ ->.
      rewrite step_Stopped in Hs by exact Hover. discriminate. }
    { intros ev l p l' p' _ Hs _ _ ->.
      rewrite step_Stopped in Hs by exact Hover. discriminate. }
    { intros _. exact Hx. }
    fold h' in Hu2, Hj2. rewrite Hu' in Hu2. injection Hu2 as <-.
    rewrite (visible_live key h' u Hl'). exact (proj2 (Hj2 Hl')).
Qed.

Lemma named_step key name ev l p l' p' :
  step GlobalDocumentUpload ev l p = Some (l', p') ->
  named key name l p -> named key name l' p'.
Proof.
  intros H (Hk & Hn & Hi). unfold named, entryOf in *.
  split_step H; try contradiction; subst key name;
    unfold setEntry, markError, removeEntry;
    rewrite ?lookup_insert_eq, ?lookup_delete_eq;
    (split; [reflexivity|]); (split; [reflexivity|]);
    repeat match goal with
           | H : exists _, _ |- _ => destruct H as (? & ? & ?)
           end;
    try (eexists; split; [reflexivity|]; reflexivity);
    try (intros e [= <-]; reflexivity);
    try (intros e [=]); eauto.
  all: subst e;
    match goal with
    | H : _ !! _ = Some _ |- _ => rewrite H
    end; simpl; assumption.
Qed.

(** X3. In the global upload component every entry shown for an upload
    carries the name of the dropped file as [filename], whatever the server
    puts into its answers and however the upload ends. *)
Theorem global_upload_shows_dropped_name name now evs p0 e :
  let key := makeFileId name now in
  let r := exec GlobalDocumentUpload (Dropped name now :: evs) idle p0 in
  entryOf key r.2 = Some e -> filename e = Some name.
Proof.
  intros key r. subst r. rewrite exec_dropped.
  set (l1 := (handleFileUpload_call GlobalDocumentUpload name now idle p0).1).
  set (p1 := (handleFileUpload_call GlobalDocumentUpload name now idle p0).2).
  assert (H1 : named key name l1 p1).
  { split; [reflexivity|]. split; [reflexivity|].
    unfold entryOf, l1, p1, handleFileUpload_call, setUploadingFiles,
      setEntry, key. simpl.
    rewrite lookup_insert_eq. eexists. split; reflexivity. }
  pose proof (exec_invariant (named key name) GlobalDocumentUpload
                (named_step key name) evs l1 p1 H1) as (_ & _ & Hi).
  destruct (exec GlobalDocumentUpload evs l1 p1) as [l p]. simpl in *.
  intros He. destruct (phase l); try contradiction; auto;
    destruct Hi as (e' & He' & Hf); congruence.
Qed.

(** *** Dropping several files *)

Lemma keysOf_elem key files :
  key ∈ keysOf files <->
  exists name now, (name, now) ∈ files /\ key = makeFileId name now.
Proof.
  unfold keysOf. rewrite list_elem_of_fmap. split.
  - intros ([name now] & -> & Hin). eauto.
  - intros (name & now & Hin & ->). exists (name, now). auto.
Qed.

Lemma handleDrop_frame c files p key :
  key ∉ keysOf files ->
  entryOf key (handleDrop c files p).2 = entryOf key p.
Proof.
  revert p. induction files as [|[name now] rest IH]; intros p Hk; simpl.
  - reflexivity.
  - destruct (handleDrop c rest
                (setUploadingFiles
                   (setEntry (makeFileId name now)
                      (uploadingEntry c (makeFileId name now) name)) p))
      as [ls p2] eqn:E. simpl.
    change p2 with (ls, p2).2. rewrite <- E.
    rewrite IH.
    + unfold entryOf, setEntry. simpl. apply lookup_insert_ne.
      intros Heq. apply Hk. simpl. rewrite Heq. apply list_elem_of_here.
    + intros Hin. apply Hk. simpl. apply list_elem_of_further. exact Hin.
Qed.

Lemma handleDrop_shown c files p name now :
  (name, now) ∈ files ->
  entryOf (makeFileId name now) (handleDrop c files p).2 =
  Some (uploadingEntry c (makeFileId name now) name).
Proof.
  revert p. induction files as [|[name' now'] rest IH]; intros p Hin; simpl.
  - apply elem_of_nil in Hin. contradiction.
  - destruct (handleDrop c rest
                (setUploadingFiles
                   (setEntry (makeFileId name' now')
                      (uploadingEntry c (makeFileId name' now') name')) p))
      as [ls p2] eqn:E. simpl.
    change p2 with (ls, p2).2. rewrite <- E.
    destruct (decide ((name, now) ∈ rest)) as [Hr|Hr]; [apply IH; exact Hr|].
    apply elem_of_cons in Hin as [[= -> ->]|Hin]; [|contradiction].
    rewrite handleDrop_frame.
    + unfold entryOf, setEntry. simpl. apply lookup_insert_eq.
    + intros Hk. apply keysOf_elem in Hk as (n & t & Hnt & Heq).
      apply makeFileId_inj in Heq as [-> ->]. contradiction.
Qed.

Lemma handleDrop_loops c files p :
  map fileId (handleDrop c files p).1 = keysOf files /\
  Forall (fun l => phase l = AwaitUpload) (handleDrop c files p).1.
Proof.
  revert p. induction files as [|[name now] rest IH]; intros p; simpl.
  - split; [reflexivity | constructor].
  - destruct (handleDrop c rest
                (setUploadingFiles
                   (setEntry (makeFileId name now)
                      (uploadingEntry c (makeFileId name now) name)) p))
      as [ls p2] eqn:E. simpl.
    destruct (IH (setUploadingFiles
                    (setEntry (makeFileId name now)
                       (uploadingEntry c (makeFileId name now) name)) p))
      as [Hm Hf].
    rewrite E in Hm, Hf. simpl in Hm, Hf.
    split; [rewrite Hm; reflexivity | constructor; [reflexivity | exact Hf]].
Qed.

Lemma handleDrop_size c files p :
  NoDup files ->
  (forall key, key ∈ keysOf files -> entryOf key p = None) ->
  size (uploadingFiles (handleDrop c files p).2) =
  size (uploadingFiles p) + length files.
Proof.
  revert p. induction files as [|[name now] rest IH]; intros p Hnd Hfresh;
    simpl.
  - lia.
  - apply NoDup_cons in Hnd as [Hhead Hnd].
    destruct (handleDrop c rest
                (setUploadingFiles
                   (setEntry (makeFileId name now)
                      (uploadingEntry c (makeFileId name now) name)) p))
      as [ls p2] eqn:E. simpl.
    change p2 with (ls, p2).2. rewrite <- E.
    rewrite IH; [|exact Hnd|].
    + unfold setEntry. simpl. rewrite map_size_insert_None; [lia|].
      apply Hfresh. simpl. apply list_elem_of_here.
    + intros key Hk. unfold entryOf, setEntry. simpl.
      rewrite lookup_insert_ne.
      * apply Hfresh. simpl. apply list_elem_of_further. exact Hk.
      * intros Heq. subst key.
        apply keysOf_elem in Hk as (n & t & Hnt & Heq).
        apply makeFileId_inj in Heq as [-> ->]. contradiction.
Qed.

(** X4. Dropping or selecting several files starts one upload per file
    and shows every one of them as [uploading] under its own key, leaving
    the entries under all other keys as they were; when no two of the
    files have both the same name and the same instant, and none of their
    keys is in use, the mapping grows by one entry per file. *)
Theorem handleDrop_shows_every_file c (files : list (string * N))
    (p : @Page Metadata) :
  let r := handleDrop c files p in
  map fileId r.1 = keysOf files /\
  Forall (fun l => phase l = AwaitUpload) r.1 /\
  (forall name now, (name, now) ∈ files ->
     entryOf (makeFileId name now) r.2 =
       Some (uploadingEntry c (makeFileId name now) name)) /\
  (forall key, key ∉ keysOf files -> entryOf key r.2 = entryOf key p) /\
  notified r.2 = notified p /\
  (NoDup files ->
   (forall key, key ∈ keysOf files -> entryOf key p = None) ->
   size (uploadingFiles r.2) = size (uploadingFiles p) + length files).
Proof.
  intros r. subst r.
  split; [apply handleDrop_loops|]. split; [apply handleDrop_loops|].
  split; [intros name now; apply handleDrop_shown|].
  split; [intros key; apply handleDrop_frame|].
  split; [|apply handleDrop_size].
  revert p. induction files as [|[name now] rest IH]; intros p; simpl;
    [reflexivity|].
  specialize (IH (setUploadingFiles
                    (setEntry (makeFileId name now)
                       (uploadingEntry c (makeFileId name now) name)) p)).
  destruct (handleDrop c rest _) as [ls p2]. simpl in *. exact IH.
Qed.

End MorePollerFacts.

(** ** EmployeeDashboard, further *)

Lemma filter_twice {A} (f : A -> bool) (l : list A) :
  List.filter f (List.filter f l) = List.filter f l.
Proof.
  induction l as [|x l IH]; simpl; [reflexivity|].
  destruct (f x) eqn:E; simpl; rewrite ?E, IH; reflexivity.
Qed.

Lemma filter_swap {A} (f g : A -> bool) (l : list A) :
  List.filter f (List.filter g l) = List.filter g (List.filter f l).
Proof.
  induction l as [|x l IH]; simpl; [reflexivity|].
  destruct (f x) eqn:Ef, (g x) eqn:Eg; simpl; rewrite ?Ef, ?Eg, IH;
    reflexivity.
Qed.

Lemma filter_all {A} (f : A -> bool) (l : list A) :
  (forall x, In x l -> f x = true) -> List.filter f l = l.
Proof.
  induction l as [|x l IH]; simpl; intros H; [reflexivity|].
  rewrite (H x) by auto. rewrite IH by auto. reflexivity.
Qed.

Lemma activeListed_act d a : activeListed d -> activeListed (act d a).
Proof.
  unfold activeListed. destruct a as [[newSession|]|sessionId [[]|]]; simpl;
    auto.
  - intros _. apply list_elem_of_here.
  - unfold deleteSession_resume.
    destruct (isCurrent (currentSession d) sessionId) eqn:E; simpl; [auto|].
    destruct (currentSession d) as [s|]; [|auto]. simpl in E.
    apply bool_decide_eq_false in E. intros Hin.
    apply list_elem_of_fmap in Hin as (s' & Hid & Hin).
    apply list_elem_of_fmap. exists s'. split; [exact Hid|].
    apply list_elem_of_In, filter_In. split; [apply list_elem_of_In, Hin|].
    apply negb_true_iff, bool_decide_eq_false. congruence.
Qed.

(** X5. Whatever sessions the user creates and deletes, and whichever
    of these calls fail, the current session stays one of the sessions
    listed in the sidebar (by id) whenever there is one. *)
Theorem active_session_stays_listed (actions : list SessionAction)
    (d : Dashboard) :
  activeListed d -> activeListed (fold_left act actions d).
Proof.
  revert d. induction actions as [|a actions IH]; intros d Hd; simpl.
  - exact Hd.
  - apply IH, activeListed_act, Hd.
Qed.

(** X6. Creating a session and then deleting it gives back the session
    list held before, provided no session held had the id of the new one;
    no session is current afterwards and no message is shown. *)
Theorem create_then_delete_restores (newSession : ChatSession)
    (d : Dashboard) :
  (forall s, In s (sessions d) -> session_id s <> session_id newSession) ->
  let d' := act (act d (CreateChat (Some newSession)))
              (DeleteChat (session_id newSession) (Some tt)) in
  sessions d' = sessions d /\ currentSession d' = None /\ messages d' = [] /\
  documents d' = documents d.
Proof.
  intros Hfresh d'. subst d'. simpl. unfold deleteSession_resume. simpl.
  rewrite bool_decide_eq_true_2 by reflexivity. simpl.
  split; [|auto].
  rewrite bool_decide_eq_true_2 by reflexivity. simpl.
  apply filter_all. intros s Hs.
  apply negb_true_iff, bool_decide_eq_false. auto.
Qed.

(** X7. Deleting a session twice comes to deleting it once, and two
    deletions give the same state in either order. *)
Theorem deletions_commute (a b : string) (d : Dashboard) :
  let delete sessionId d := act d (DeleteChat sessionId (Some tt)) in
  delete a (delete a d) = delete a d /\
  delete a (delete b d) = delete b (delete a d).
Proof.
  simpl. unfold deleteSession_resume, isCurrent.
  destruct (currentSession d) as [s|] eqn:Ec; simpl.
  - destruct (bool_decide (session_id s = a)) eqn:Ea,
             (bool_decide (session_id s = b)) eqn:Eb;
      simpl; rewrite ?Ec, ?Ea, ?Eb; simpl; unfold setSessions; simpl;
      rewrite ?filter_twice; (split; [reflexivity|]);
      rewrite (filter_swap _ _ (sessions d)) at 1; reflexivity.
  - unfold setSessions; simpl. rewrite ?Ec. simpl.
    rewrite filter_twice. split; [reflexivity|].
    rewrite (filter_swap _ _ (sessions d)) at 1. reflexivity.
Qed.

(** X8. The first load takes both lists or neither: when the session
    fetch or the document fetch fails, the dashboard keeps the sessions and
    documents it had, even those the other fetch returned, and loads no
    session.  When both succeed the lists are the fetched ones and the
    session loaded next is the first of the fetched list, if there is
    one. *)
Theorem loadInitialData_all_or_nothing (rs : option (list ChatSession))
    (rd : option (list Document)) (d : Dashboard) :
  let r := loadInitialData_resume rs rd d in
  (rs = None \/ rd = None -> r = (d, None)) /\
  (forall fetchedSessions fetchedDocuments,
     rs = Some fetchedSessions -> rd = Some fetchedDocuments ->
     sessions r.1 = fetchedSessions /\ documents r.1 = fetchedDocuments /\
     currentSession r.1 = currentSession d /\ messages r.1 = messages d /\
     r.2 = session_id <$> head fetchedSessions /\
     (forall sessionId, r.2 = Some sessionId ->
        sessionId ∈ map session_id (sessions r.1))).
Proof.
  intros r. subst r. split.
  - intros [-> | ->]; [reflexivity | destruct rs; reflexivity].
  - intros ss ds -> ->. simpl.
    repeat (split; [reflexivity|]).
    split; [destruct ss; reflexivity|].
    intros sid. destruct ss as [|s ss]; [discriminate|].
    intros [= <-]. apply list_elem_of_here.
Qed.

(** X9. [sendMessage] does nothing without a current session.  Once
    it has settled the loading flag is off whichever call failed; when
    sending failed, sessions, current session and messages are untouched;
    when it succeeded, the current session and the messages are those
    reloaded (or the old ones if the reload failed) and the session list is
    the one fetched (or the old one if that fetch failed), independently of
    each other.  The documents are never touched. *)
Theorem sendMessage_outcomes (sent : option unit)
    (reloaded : option (ChatSession * list ChatMessage))
    (listed : option (list ChatSession)) (d : Dashboard) :
  let d' := sendMessage_resume sent reloaded listed d in
  (is_Some (sendMessage_call d) <-> is_Some (currentSession d)) /\
  isLoading d' = false /\ documents d' = documents d /\
  (sent = None ->
   sessions d' = sessions d /\ currentSession d' = currentSession d /\
   messages d' = messages d) /\
  (sent = Some tt ->
   sessions d' = default (sessions d) listed /\
   currentSession d' = default (currentSession d) (Some <$> (fst <$> reloaded)) /\
   messages d' = default (messages d) (snd <$> reloaded)).
Proof.
  intros d'. subst d'. split.
  - unfold sendMessage_call. destruct (currentSession d); split;
      intros [x Hx]; try discriminate; eauto.
  - split; [reflexivity|]. split.
    + destruct sent, reloaded as [[]|], listed; reflexivity.
    + split; [intros ->; auto|]. intros ->.
      destruct reloaded as [[]|], listed; auto.
Qed.

(** ** DocumentList, further *)

Lemma dotless_cons (a : ascii) (s : string) :
  dotless (String a s) <-> a <> "."%char /\ dotless s.
Proof.
  unfold dotless. simpl. rewrite not_elem_of_cons. split; intros [H1 H2];
    split; auto.
Qed.

Lemma splitDot_not_nil (s : string) : splitDot s <> [].
Proof.
  destruct s as [|a s]; simpl; [discriminate|].
  destruct (decide (a = "."%char)); [discriminate|].
  destruct (splitDot s); discriminate.
Qed.

Lemma splitDot_dotless (s : string) : dotless s -> splitDot s = [s].
Proof.
  induction s as [|a s IH]; [reflexivity|].
  intros [Ha Hs]%dotless_cons. simpl.
  rewrite decide_False by exact Ha. rewrite (IH Hs). reflexivity.
Qed.

(** Splitting distributes over a dot. *)
Lemma splitDot_dot (s1 s2 : string) :
  splitDot (s1 +:+ "." +:+ s2) = splitDot s1 ++ splitDot s2.
Proof.
  induction s1 as [|a s1 IH].
  - reflexivity.
  - change (String a s1 +:+ "." +:+ s2) with (String a (s1 +:+ "." +:+ s2)).
    simpl. destruct (decide (a = "."%char)).
    + rewrite IH. reflexivity.
    + rewrite IH. destruct (splitDot s1) as [|h t] eqn:E.
      * exfalso. exact (splitDot_not_nil _ E).
      * reflexivity.
Qed.

Lemma splitDot_parts_dotless (s : string) : Forall dotless (splitDot s).
Proof.
  induction s as [|a s IH]; simpl.
  - constructor; [|constructor]. unfold dotless. simpl. apply not_elem_of_nil.
  - destruct (decide (a = "."%char)).
    + constructor; [|exact IH]. unfold dotless. simpl. apply not_elem_of_nil.
    + destruct (splitDot s) as [|h t]; [repeat constructor|].
      * apply dotless_cons. split; [assumption|].
        unfold dotless. simpl. apply not_elem_of_nil.
      * inversion IH; subst. constructor; [|assumption].
        apply dotless_cons. auto.
Qed.

Lemma joinDot_splitDot (s : string) : joinDot (splitDot s) = s.
Proof.
  induction s as [|a s IH]; [reflexivity|]. simpl.
  destruct (decide (a = "."%char)) as [->|Ha].
  - destruct (splitDot s) as [|h t] eqn:E.
    + exfalso. exact (splitDot_not_nil _ E).
    + change (joinDot (EmptyString :: h :: t))
        with ("" +:+ "." +:+ joinDot (h :: t)).
      rewrite IH. reflexivity.
  - destruct (splitDot s) as [|h t] eqn:E.
    + exfalso. exact (splitDot_not_nil _ E).
    + destruct t as [|h' t].
      * simpl in *. rewrite IH. reflexivity.
      * change (joinDot (String a h :: h' :: t))
          with (String a h +:+ "." +:+ joinDot (h' :: t)).
        change (joinDot (h :: h' :: t))
          with (h +:+ "." +:+ joinDot (h' :: t)) in IH.
        rewrite <- IH. reflexivity.
Qed.

(** X10. [split('.')] and [join('.')] are inverse to each other on file
    names, no part holds a dot, and the extension taken by [pop()] is what
    follows the last dot: the whole name when it has no dot, and [ext] for
    [name.ext] whenever [ext] has no dot, whatever dots [name] has. *)
Theorem extension_is_last_part (filename name ext : string) :
  joinDot (splitDot filename) = filename /\
  Forall dotless (splitDot filename) /\
  dotless (extensionOf filename) /\
  (dotless filename -> extensionOf filename = filename) /\
  (dotless ext -> extensionOf (name +:+ "." +:+ ext) = ext).
Proof.
  split; [apply joinDot_splitDot|].
  split; [apply splitDot_parts_dotless|].
  split.
  { unfold extensionOf.
    pose proof (splitDot_parts_dotless filename) as Hall.
    pose proof (splitDot_not_nil filename) as Hne.
    induction Hall as [|x l Hx Hall IH]; [contradiction|].
    destruct l as [|y l]; [exact Hx|]. apply IH. discriminate. }
  split.
  - intros H. unfold extensionOf. rewrite splitDot_dotless by exact H.
    reflexivity.
  - intros H. unfold extensionOf.
    rewrite splitDot_dot, (splitDot_dotless ext H).
    apply last_last.
Qed.

Section FileKindFacts.

Variable lower : string -> string.

(** X11. The icon and the colour of a document depend on its name only
    through the part after the last dot; and they sort documents alike:
    two file names get the same icon exactly when they get the same
    colour. *)
Theorem icon_and_colour_by_extension (filename other name ext : string) :
  (dotless ext ->
   getFileIcon lower (name +:+ "." +:+ ext) = getFileIcon lower ext /\
   getDocumentTypeColor lower (name +:+ "." +:+ ext) =
     getDocumentTypeColor lower ext) /\
  (getFileIcon lower filename = getFileIcon lower other <->
   getDocumentTypeColor lower filename =
     getDocumentTypeColor lower other).
Proof.
  split.
  - intros H. unfold getFileIcon, getDocumentTypeColor.
    assert (H1 : extensionOf (name +:+ "." +:+ ext) = ext).
    { unfold extensionOf. rewrite splitDot_dot, (splitDot_dotless ext H).
      apply last_last. }
    assert (H2 : extensionOf ext = ext).
    { unfold extensionOf. rewrite splitDot_dotless by exact H. reflexivity. }
    rewrite H1, H2. auto.
  - unfold getFileIcon, getDocumentTypeColor.
    set (e1 := lower (extensionOf filename)).
    set (e2 := lower (extensionOf other)).
    clearbody e1 e2.
    repeat case_decide; split; intros Hsame;
      first [reflexivity | discriminate Hsame].
Qed.

End FileKindFacts.

Lemma settleOne_elem (x y : string) (calls : list string) :
  NoDup calls ->
  (x ∈ settleOne y calls <-> x ∈ calls /\ x <> y).
Proof.
  induction calls as [|z calls IH]; simpl; intros Hnd.
  - rewrite elem_of_nil. tauto.
  - apply NoDup_cons in Hnd as [Hz Hnd].
    destruct (decide (z = y)) as [->|Hne].
    + rewrite elem_of_cons. split.
      * intros H. split; [auto|]. intros ->. contradiction.
      * intros [[->|H] Hxy]; [contradiction | exact H].
    + rewrite !elem_of_cons, IH by exact Hnd. split.
      * intros [->|[H1 H2]]; auto.
      * intros [[->|H1] H2]; auto.
Qed.

Lemma settleOne_NoDup (y : string) (calls : list string) :
  NoDup calls -> NoDup (settleOne y calls).
Proof.
  induction calls as [|z calls IH]; simpl; intros Hnd; [constructor|].
  apply NoDup_cons in Hnd as [Hz Hnd].
  destruct (decide (z = y)); [exact Hnd|].
  apply NoDup_cons. split; [|auto].
  intros H. apply settleOne_elem in H as [H _]; auto.
Qed.

Lemma tidy_step ev s s' : deleteStep ev s = Some s' -> tidy s -> tidy s'.
Proof.
  intros H (Hnd & Hset & Hcount). unfold deleteStep in H.
  destruct ev as [documentId confirmed|documentId r].
  - destruct (decide (documentId ∈ deletingIds (listState s))) as [|Hout];
      [discriminate|].
    injection H as <-. unfold tidy, handleDelete_call.
    destruct confirmed; simpl; [|auto].
    split; [|split; [|exact Hcount]].
    + apply NoDup_cons. split; [|exact Hnd]. rewrite <- Hset. exact Hout.
    + intros x. rewrite elem_of_union, elem_of_singleton, elem_of_cons, Hset.
      tauto.
  - destruct (decide (documentId ∈ inFlight s)) as [Hin|]; [|discriminate].
    injection H as <-. unfold tidy, handleDelete_resume. simpl.
    split; [apply settleOne_NoDup, Hnd|]. split.
    + intros x. rewrite settleOne_elem by exact Hnd.
      destruct r; simpl; rewrite elem_of_difference, elem_of_singleton, Hset;
        tauto.
    + destruct r; simpl; lia.
Qed.


(** ** ChatInterface *)

Section ChatInputFacts.

Variable isWhite : ascii -> bool.

#[local] Abbreviation white := (allWhite isWhite).

Lemma allWhite_empty : white "".
Proof. constructor. Qed.

Lemma allWhite_cons (a : ascii) (s : string) :
  white (String a s) <-> isWhite a = true /\ white s.
Proof.
  unfold allWhite. simpl. split.
  - intros H. inversion H; subst. auto.
  - intros [? ?]. constructor; assumption.
Qed.

Lemma trimStart_cut (s : string) :
  exists before, s = before +:+ trimStart isWhite s /\ white before.
Proof.
  induction s as [|a s IH]; simpl.
  - exists "". split; [reflexivity | apply allWhite_empty].
  - destruct (isWhite a) eqn:E.
    + destruct IH as (before & Hs & Hw). exists (String a before). split.
      * change (String a before +:+ trimStart isWhite s)
          with (String a (before +:+ trimStart isWhite s)).
        rewrite <- Hs. reflexivity.
      * apply allWhite_cons. auto.
    + exists "". split; [reflexivity | apply allWhite_empty].
Qed.

Lemma trimStart_first (s : string) (a : ascii) :
  firstUnit (trimStart isWhite s) = Some a -> isWhite a = false.
Proof.
  induction s as [|b s IH]; simpl; [discriminate|].
  destruct (isWhite b) eqn:E; [exact IH|]. simpl. intros [= <-]. exact E.
Qed.

Lemma trimEnd_cut (s : string) :
  exists after, s = trimEnd isWhite s +:+ after /\ white after.
Proof.
  induction s as [|a s IH]; simpl.
  - exists "". split; [reflexivity | apply allWhite_empty].
  - destruct IH as (after & Hs & Hw).
    destruct (trimEnd isWhite s) as [|b t] eqn:Et.
    + change (s = after) in Hs. rewrite <- Hs in Hw.
      destruct (isWhite a) eqn:E.
      * exists (String a s). split; [reflexivity|]. apply allWhite_cons. auto.
      * exists s. split; [reflexivity | exact Hw].
    + exists after. split; [|exact Hw].
      change (String a (String b t) +:+ after)
        with (String a (String b t +:+ after)).
      rewrite <- Hs. reflexivity.
Qed.

Lemma trimEnd_last (s : string) (a : ascii) :
  lastUnit (trimEnd isWhite s) = Some a -> isWhite a = false.
Proof.
  revert a. induction s as [|b s IH]; simpl; intros a; [discriminate|].
  destruct (trimEnd isWhite s) as [|c t] eqn:Et.
  - destruct (isWhite b) eqn:E; simpl; [discriminate|].
    intros [= <-]. exact E.
  - change (lastUnit (String b (String c t)))
      with (match lastUnit (String c t) with
            | Some x => Some x
            | None => Some b
            end).
    destruct (lastUnit (String c t)) as [x|] eqn:El.
    + intros [= <-]. apply IH. reflexivity.
    + simpl in El. destruct (lastUnit t); discriminate.
Qed.

(** Trimming the end keeps the first code unit of a string that does not
    start with white space. *)
Lemma trimEnd_first (s : string) (a : ascii) :
  firstUnit s = Some a -> isWhite a = false ->
  firstUnit (trimEnd isWhite s) = Some a.
Proof.
  destruct s as [|b s]; simpl; [discriminate|]. intros [= ->] E.
  destruct (trimEnd isWhite s); [rewrite E|]; reflexivity.
Qed.

Lemma trimStart_clean (s : string) :
  (forall a, firstUnit s = Some a -> isWhite a = false) ->
  trimStart isWhite s = s.
Proof.
  destruct s as [|a s]; simpl; [reflexivity|]. intros H.
  rewrite (H a eq_refl). reflexivity.
Qed.

Lemma trimEnd_twice (s : string) :
  trimEnd isWhite (trimEnd isWhite s) = trimEnd isWhite s.
Proof.
  induction s as [|a s IH]; simpl; [reflexivity|].
  destruct (trimEnd isWhite s) as [|b t] eqn:Et.
  - destruct (isWhite a) eqn:E; simpl; [reflexivity|]. rewrite E. reflexivity.
  - change (trimEnd isWhite (String a (String b t)))
      with (match trimEnd isWhite (String b t) with
            | EmptyString =>
                if isWhite a then EmptyString else String a EmptyString
            | t' => String a t'
            end).
    rewrite IH. reflexivity.
Qed.

Lemma trim_first (s : string) (a : ascii) :
  firstUnit (trim isWhite s) = Some a -> isWhite a = false.
Proof.
  unfold trim. intros H.
  destruct (trimStart isWhite s) as [|b t] eqn:Es; [discriminate|].
  assert (Hb : isWhite b = false).
  { apply (trimStart_first s). rewrite Es. reflexivity. }
  rewrite (trimEnd_first (String b t) b eq_refl Hb) in H.
  injection H as <-. exact Hb.
Qed.

Lemma allWhite_trimEnd (s : string) : white s -> trimEnd isWhite s = "".
Proof.
  induction s as [|a s IH]; [reflexivity|].
  intros [Ha Hs]%allWhite_cons. simpl. rewrite (IH Hs), Ha. reflexivity.
Qed.

Lemma allWhite_trimStart (s : string) : white s -> trimStart isWhite s = "".
Proof.
  induction s as [|a s IH]; [reflexivity|].
  intros [Ha Hs]%allWhite_cons. simpl. rewrite Ha. exact (IH Hs).
Qed.

Lemma allWhite_append (s1 s2 : string) :
  white s1 -> white s2 -> white (s1 +:+ s2).
Proof.
  intros H1 H2. induction s1 as [|a s1 IH]; [exact H2|].
  apply allWhite_cons in H1 as [Ha H1].
  change (String a s1 +:+ s2) with (String a (s1 +:+ s2)).
  apply allWhite_cons. auto.
Qed.

(** [trim] cuts a string into white space, the result, and white space
    again; the result neither starts nor ends with white space, is
    empty exactly for strings of white space only, and is left as it is by
    a second [trim]. *)
Lemma trim_cuts_white_space (s : string) :
  (exists before after,
     s = before +:+ trim isWhite s +:+ after /\ white before /\ white after) /\
  (forall a, firstUnit (trim isWhite s) = Some a -> isWhite a = false) /\
  (forall a, lastUnit (trim isWhite s) = Some a -> isWhite a = false) /\
  (trim isWhite s = "" <-> white s) /\
  trim isWhite (trim isWhite s) = trim isWhite s.
Proof.
  assert (Hcut : exists before after,
     s = before +:+ trim isWhite s +:+ after /\ white before /\ white after).
  { destruct (trimStart_cut s) as (before & Hs & Hb).
    destruct (trimEnd_cut (trimStart isWhite s)) as (after & Ht & Ha).
    exists before, after. unfold trim. rewrite <- Ht. auto. }
  split; [exact Hcut|].
  split; [apply trim_first|].
  split; [intros a; apply trimEnd_last|].
  split.
  - split.
    + intros He. destruct Hcut as (before & after & Hs & Hb & Ha).
      rewrite He in Hs. rewrite Hs. apply allWhite_append; assumption.
    + intros Hw. unfold trim. rewrite allWhite_trimStart by exact Hw.
      reflexivity.
  - unfold trim at 1.
    rewrite (trimStart_clean (trim isWhite s)) by apply trim_first.
    unfold trim. apply trimEnd_twice.
Qed.

(** X13. The message form sends exactly when the trimmed input is not
    empty, no answer is awaited and there is a session with a non-empty
    id; what it sends is the input without the white space at its two
    ends, which is not empty, and the input is then cleared; otherwise
    nothing is sent and the input is kept.  The Enter key does the same
    unless Shift is held.  When the form of the dashboard sends,
    [sendMessage] finds the current session and calls the API with its
    id. *)
Theorem handleSubmit_sends_trimmed (inputValue : string) (isLoading : bool)
    (sessionId : option string) (d : Dashboard) :
  let r := handleSubmit isWhite inputValue isLoading sessionId in
  (is_Some r.1 <->
   trim isWhite inputValue <> "" /\ isLoading = false /\
   exists s, sessionId = Some s /\ s <> "") /\
  (forall m, r.1 = Some m ->
     m = trim isWhite inputValue /\ m <> "" /\ r.2 = "" /\
     (exists before after,
        inputValue = before +:+ m +:+ after /\ white before /\ white after) /\
     (forall a, firstUnit m = Some a -> isWhite a = false) /\
     (forall a, lastUnit m = Some a -> isWhite a = false)) /\
  (r.1 = None -> r.2 = inputValue) /\
  (forall key shiftKey,
     handleKeyDown isWhite key shiftKey inputValue isLoading sessionId =
     if decide (key = "Enter" /\ shiftKey = false) then r
     else (None, inputValue)) /\
  (is_Some (handleSubmit isWhite inputValue isLoading (sessionIdOf d)).1 ->
   exists s, currentSession d = Some s /\
             (fst <$> sendMessage_call d) = Some (session_id s)).
Proof.
  intros r. subst r. unfold handleSubmit.
  assert (Htruthy : forall x, truthy x = true <-> x <> "").
  { intros x. unfold truthy. rewrite negb_true_iff, bool_decide_eq_false.
    reflexivity. }
  assert (Hcond : forall sid,
    truthy (trim isWhite inputValue) && negb isLoading && truthyId sid = true
    <-> trim isWhite inputValue <> "" /\ isLoading = false /\
        exists s, sid = Some s /\ s <> "").
  { intros sid. rewrite !andb_true_iff, negb_true_iff, Htruthy.
    destruct sid as [s|]; simpl.
    - rewrite Htruthy. split.
      + intros [[H1 H2] H3]. eauto.
      + intros (H1 & H2 & s' & Hs' & H3). injection Hs' as <-. auto.
    - split; [intros [_ Hf]; discriminate|].
      intros (_ & _ & s & Hf & _). discriminate. }
  split; [|split; [|split; [|split]]].
  - rewrite <- Hcond.
    destruct (truthy (trim isWhite inputValue) && negb isLoading
              && truthyId sessionId); simpl; split.
    + reflexivity.
    + eauto.
    + intros [x Hx]. discriminate.
    + discriminate.
  - intros m.
    destruct (truthy (trim isWhite inputValue) && negb isLoading
              && truthyId sessionId) eqn:E; simpl; [|discriminate].
    intros [= <-]. apply Hcond in E as (Hne & _).
    split; [reflexivity|]. split; [exact Hne|]. split; [reflexivity|].
    destruct (trim_cuts_white_space inputValue) as (Hcut & H1 & H2 & _).
    auto.
  - destruct (truthy (trim isWhite inputValue) && negb isLoading
              && truthyId sessionId); simpl; [discriminate | reflexivity].
  - intros key shiftKey. unfold handleKeyDown, handleSubmit.
    destruct (decide (key = "Enter" /\ shiftKey = false)) as [[-> ->]|Hn].
    + reflexivity.
    + destruct (bool_decide (key = "Enter") && negb shiftKey) eqn:E;
        [|reflexivity].
      apply andb_true_iff in E as [E1 E2].
      apply bool_decide_eq_true in E1. apply negb_true_iff in E2. tauto.
  - intros [m Hm].
    destruct (truthy (trim isWhite inputValue) && negb isLoading
              && truthyId (sessionIdOf d)) eqn:E; [|discriminate].
    apply Hcond in E as (_ & _ & s & Hs & _).
    unfold sessionIdOf, sendMessage_call in *.
    destruct (currentSession d) as [cur|]; [|discriminate].
    exists cur. split; reflexivity.
Qed.

End ChatInputFacts.

Lemma substring_cons (a : ascii) (s : string) (n : nat) :
  substring 0 (S n) (String a s) = String a (substring 0 n s).
Proof. reflexivity. Qed.

Lemma substring_cut (n : nat) (s : string) :
  exists rest,
    s = substring 0 n s +:+ rest /\
    String.length (substring 0 n s) = Nat.min n (String.length s).
Proof.
  revert s. induction n as [|n IH]; intros s.
  - exists s. destruct s; split; reflexivity.
  - destruct s as [|a s]; [exists ""; split; reflexivity|].
    destruct (IH s) as (rest & Hs & Hl). exists rest.
    rewrite substring_cons. split.
    + change (String a (substring 0 n s) +:+ rest)
        with (String a (substring 0 n s +:+ rest)).
      rewrite <- Hs. reflexivity.
    + simpl. rewrite Hl. reflexivity.
Qed.

Lemma length_append_string (s1 s2 : string) :
  String.length (s1 +:+ s2) = String.length s1 + String.length s2.
Proof.
  induction s1 as [|a s1 IH]; [reflexivity|].
  change (String a s1 +:+ s2) with (String a (s1 +:+ s2)).
  simpl. rewrite IH. reflexivity.
Qed.

(** X14. A source card shows the chunk whole when it has at most 200
    code units, and its first 200 followed by three dots otherwise, so
    never more than 203.  Under a message at most three cards are shown,
    the first three sources in their order; the number announced for the
    others is positive and adds up with the cards to the number of
    sources; without sources nothing is shown. *)
Theorem source_display_bounded {A : Type} (chunk_content : string)
    (sources : option (list A)) :
  String.length (excerpt chunk_content) <= 203 /\
  (String.length chunk_content <= 200 -> excerpt chunk_content = chunk_content) /\
  (200 < String.length chunk_content ->
   exists shown rest,
     chunk_content = shown +:+ rest /\ String.length shown = 200 /\
     excerpt chunk_content = shown +:+ "...") /\
  (sourcesPanel sources = None <-> sources = None \/ sources = Some []) /\
  (forall cards more l,
     sources = Some l -> sourcesPanel sources = Some (cards, more) ->
     0 < length cards <= 3 /\
     (exists others, l = cards ++ others /\
                     length others = default 0 more) /\
     (forall n, more = Some n -> 0 < n)).
Proof.
  unfold excerpt.
  destruct (substring_cut 200 chunk_content) as (rest & Hs & Hl).
  split; [|split; [|split; [|split]]].
  - destruct (200 <? String.length chunk_content) eqn:E.
    + rewrite length_append_string, Hl.
      change (String.length "...") with 3. lia.
    + apply Nat.ltb_ge in E. lia.
  - intros H. apply Nat.ltb_ge in H. rewrite H. reflexivity.
  - intros H. exists (substring 0 200 chunk_content), rest.
    split; [exact Hs|]. split; [rewrite Hl; lia|].
    apply Nat.ltb_lt in H. rewrite H. reflexivity.
  - unfold sourcesPanel. destruct sources as [[|x l]|]; simpl.
    + split; auto.
    + split; [discriminate|]. intros [H|H]; discriminate.
    + split; auto.
  - intros cards more l -> H. unfold sourcesPanel in H.
    destruct (0 <? length l) eqn:E0; [|discriminate].
    apply Nat.ltb_lt in E0. injection H as <- <-.
    rewrite length_firstn. split; [lia|]. split.
    + exists (skipn 3 l). split; [symmetry; apply firstn_skipn|].
      rewrite length_skipn.
      destruct (3 <? length l) eqn:E3; simpl; [reflexivity|].
      apply Nat.ltb_ge in E3. lia.
    + intros n. destruct (3 <? length l) eqn:E3; [|discriminate].
      apply Nat.ltb_lt in E3. intros [= <-]. lia.
Qed.

(** ** AdminDashboard *)

(** X15. Deleting a global document: without confirmation nothing
    changes; the alert is raised exactly when the confirmed deletion fails,
    and then nothing else changes; after a deletion that succeeded the
    statistics and the list are replaced only together, by what the two
    fetches returned when both succeeded, and are otherwise kept as they
    were, without an alert; the loading flag is off in both cases. *)
Theorem handleDeleteDocument_outcomes (confirmed : bool)
    (deleted : option unit) (fetchedStats : option AdminStats)
    (fetchedDocuments : option (list Document)) (a : AdminDashboardState) :
  let a' :=
    handleDeleteDocument confirmed deleted fetchedStats fetchedDocuments a in
  (confirmed = false -> a' = a) /\
  (adminAlerts a' = S (adminAlerts a) <-> confirmed = true /\ deleted = None) /\
  (adminAlerts a' <> S (adminAlerts a) -> adminAlerts a' = adminAlerts a) /\
  (deleted = None ->
   stats a' = stats a /\ globalDocuments a' = globalDocuments a /\
   adminLoading a' = adminLoading a) /\
  (confirmed = true -> is_Some deleted -> adminLoading a' = false) /\
  (stats a' <> stats a \/ globalDocuments a' <> globalDocuments a ->
   confirmed = true /\ is_Some deleted /\
   fetchedStats = stats a' /\ fetchedDocuments = Some (globalDocuments a')) /\
  (confirmed = true -> is_Some deleted ->
   fetchedStats = None \/ fetchedDocuments = None ->
   stats a' = stats a /\ globalDocuments a' = globalDocuments a).
Proof.
  intros a'. subst a'. unfold handleDeleteDocument, loadDashboardData_resume,
    loadDashboardData_call.
  destruct confirmed, deleted as [[]|], fetchedStats as [st|],
    fetchedDocuments as [ds|]; simpl;
    repeat match goal with
           | |- _ /\ _ => split
           | |- _ <-> _ => split
           end;
    try solve [ intros; reflexivity
              | intros; discriminate
              | intros; lia
              | intros; eauto
              | intros [? ?]; discriminate
              | intros ? [? ?]; discriminate
              | intros ? ? [?|?]; discriminate
              | intros [?|?]; congruence
              | intros [?|?]; exfalso; congruence
              | intros; exfalso; lia ].
  all: try (intros [H|H]; exfalso; apply H; reflexivity).
  all: try (intros _ [x Hx]; discriminate).
Qed.

Lemma filter_narrower {A : Type} (p q : A -> bool) (l : list A) :
  (forall x, q x = true -> p x = true) ->
  List.filter q (List.filter p l) = List.filter q l.
Proof.
  intros H. induction l as [|x l IH]; [reflexivity|]. simpl.
  destruct (p x) eqn:Ep; simpl.
  - rewrite IH. reflexivity.
  - destruct (q x) eqn:Eq; [|exact IH].
    rewrite (H x Eq) in Ep. discriminate.
Qed.

Lemma filter_sublist {A : Type} (p : A -> bool) (l : list A) :
  List.filter p l `sublist_of` l.
Proof.
  induction l as [|x l IH]; simpl; [constructor|].
  destruct (p x); [apply sublist_skip | apply sublist_cons]; exact IH.
Qed.

(** A part of a part is a part. *)
Lemma contains_trans (s t r : Text) :
  contains s t -> contains t r -> contains s r.
Proof.
  intros (x & y & ->) (before & after & ->).
  exists (x ++ before), (after ++ y).
  rewrite <- !app_assoc. reflexivity.
Qed.

Section AdminSearchFacts.

Context {data : CaseData}.

(** X16. The administrator's search keeps a global document exactly when
    its lowered file name has the lowered search term as a part, in the
    order of the list; the empty term keeps every document; and a term
    whose lowered form has the lowered form of another term as a part
    narrows the result of that other term: searching for it gives what it
    gives on the result of the other.  For a plain term and a plain file
    name the document is kept exactly when the name contains the term up
    to case, and a plain term that has another term as a part narrows that
    term's result. *)
Theorem filteredDocuments_narrows (docs : list Document)
    (searchTerm other : Text) :
  (forall doc, In doc (filteredDocuments docs searchTerm) <->
     In doc docs /\ lowerContains (doc_filename doc) searchTerm) /\
  filteredDocuments docs searchTerm `sublist_of` docs /\
  filteredDocuments docs [] = docs /\
  (lowerContains searchTerm other ->
   filteredDocuments (filteredDocuments docs other) searchTerm =
     filteredDocuments docs searchTerm /\
   filteredDocuments docs searchTerm
     `sublist_of` filteredDocuments docs other) /\
  (plainText searchTerm ->
   (forall doc, plainText (doc_filename doc) ->
      (In doc (filteredDocuments docs searchTerm) <->
       In doc docs /\ containsIgnoringCase (doc_filename doc) searchTerm)) /\
   (contains searchTerm other ->
    filteredDocuments (filteredDocuments docs other) searchTerm =
      filteredDocuments docs searchTerm /\
    filteredDocuments docs searchTerm
      `sublist_of` filteredDocuments docs other)).
Proof.
  assert (Hnarrows : lowerContains searchTerm other ->
    filteredDocuments (filteredDocuments docs other) searchTerm =
      filteredDocuments docs searchTerm /\
    filteredDocuments docs searchTerm
      `sublist_of` filteredDocuments docs other).
  { intros Hpart.
    assert (Hnarrow :
      filteredDocuments (filteredDocuments docs other) searchTerm =
      filteredDocuments docs searchTerm).
    { unfold filteredDocuments. apply filter_narrower. intros doc H.
      apply includes_spec. apply includes_spec in H.
      exact (contains_trans _ _ _ H Hpart). }
    split; [exact Hnarrow|]. rewrite <- Hnarrow. apply filter_sublist. }
  split; [|split; [|split; [|split; [exact Hnarrows|]]]].
  - intros doc. unfold filteredDocuments.
    rewrite List.filter_In, includes_spec. reflexivity.
  - apply filter_sublist.
  - unfold filteredDocuments. apply filter_all. intros doc _.
    change (toLowerCase []) with (@nil N). apply includes_empty.
  - intros Hplain. split.
    + intros doc Hdoc. unfold filteredDocuments.
      rewrite List.filter_In, includes_spec.
      rewrite <- (lowerContains_plain _ _ Hdoc Hplain). reflexivity.
    + intros (before & after & E). apply Hnarrows.
      assert (Hother : plainText other).
      { unfold plainText in *. rewrite E, !Forall_app in Hplain. tauto. }
      unfold lowerContains.
      rewrite (toLowerCase_plain _ Hplain), (toLowerCase_plain _ Hother).
      exists (map lowerUnit before), (map lowerUnit after).
      rewrite E, !map_app. reflexivity.
Qed.

End AdminSearchFacts.

(** Typing more letters does not always narrow the result: the term [Σ]
    finds nothing in a list where the longer term [ΑΣ] finds a document,
    because the sigma of the longer term is lowered to a final sigma. *)
Example longer_term_finds_more :
  let doc :=
    {| doc_id := "doc1"; doc_filename := [0x391; 0x3A3]%N; chunks := 1;
       total_length := 2; doc_status := ready; uploaded_by := None |} in
  filteredDocuments (data := latinGreek) [doc] [0x3A3%N] = [] /\
  filteredDocuments (data := latinGreek) [doc] [0x391; 0x3A3]%N = [doc].
Proof. vm_compute. split; reflexivity. Qed.

(** ** Login *)

Lemma loginRun_app (evs1 evs2 : list LoginEvent) (f : LoginForm) :
  loginRun (evs1 ++ evs2) f = loginRun evs2 (loginRun evs1 f).
Proof.
  revert f. induction evs1 as [|ev evs1 IH]; intros f; simpl; [reflexivity|].
  destruct (loginStep ev f); apply IH.
Qed.

Lemma orderly_step (ev : LoginEvent) (f f' : LoginForm) :
  loginStep ev f = Some f' -> orderly f -> orderly f'.
Proof.
  unfold orderly. intros Hstep (Hlen & Hle & Hall).
  destruct ev as [name value| | |r]; simpl in Hstep.
  - injection Hstep as <-. simpl. auto.
  - injection Hstep as <-. simpl. auto.
  - unfold submitDisabled in Hstep.
    destruct (login_isLoading f) eqn:El; [discriminate|]. simpl in Hstep.
    destruct (bool_decide (username (credentials f) = "")) eqn:Eu;
      [discriminate|].
    destruct (bool_decide (password (credentials f) = "")) eqn:Ep;
      [discriminate|].
    injection Hstep as <-. simpl.
    apply bool_decide_eq_false in Eu, Ep.
    split; [lia|]. split; [exact Hle|]. constructor; auto.
  - destruct (loginSettled f <? length (loginCalls f)) eqn:E; [|discriminate].
    apply Nat.ltb_lt in E. injection Hstep as <-. simpl.
    destruct (login_isLoading f); [|lia].
    split; [lia|]. split; [destruct r; lia | exact Hall].
Qed.

Lemma orderly_run (evs : list LoginEvent) (f : LoginForm) :
  orderly f -> orderly (loginRun evs f).
Proof.
  revert f. induction evs as [|ev evs IH]; intros f Hf; simpl; [exact Hf|].
  destruct (loginStep ev f) as [f'|] eqn:E; [|exact (IH f Hf)].
  exact (IH f' (orderly_step ev f f' E Hf)).
Qed.

(** X17. With the submit button of the login form disabled while a call
    is awaited or a field is empty, then under any sequence of key strokes,
    submissions and outcomes of the login calls: at most one call is in
    flight, and the form is loading exactly while one is; no call is ever
    made with an empty user name or password; the success callback is
    called once per successful call.  Typing clears the error shown, and a
    failed call shows its message when that is not empty. *)
Theorem login_one_call_at_a_time (evs : list LoginEvent) :
  let f := loginRun evs emptyForm in
  (length (loginCalls f) = loginSettled f /\ login_isLoading f = false \/
   length (loginCalls f) = S (loginSettled f) /\ login_isLoading f = true) /\
  loginSuccesses f <= loginSettled f /\
  (forall c, c ∈ loginCalls f -> username c <> "" /\ password c <> "") /\
  (login_isLoading f = true -> loginStep Submitted f = None) /\
  (forall name value,
     errorShown (loginRun (evs ++ [Typed name value]) emptyForm) = None) /\
  (forall message,
     login_isLoading f = true -> message <> "" ->
     let f' := loginRun (evs ++ [LoginSettled (LoginFailed message)])
                 emptyForm in
     errorShown f' = Some message /\ loginSuccesses f' = loginSuccesses f /\
     login_isLoading f' = false /\ credentials f' = credentials f).
Proof.
  intros f.
  assert (Hf : orderly f).
  { apply orderly_run. unfold orderly, emptyForm. simpl.
    split; [reflexivity|]. split; [lia | constructor]. }
  destruct Hf as (Hlen & Hle & Hall).
  split; [|split; [|split; [|split; [|split]]]].
  - destruct (login_isLoading f); [right | left]; split; auto; lia.
  - exact Hle.
  - intros c Hc. rewrite Forall_forall in Hall. apply Hall. exact Hc.
  - intros Hl. simpl. unfold submitDisabled. rewrite Hl. reflexivity.
  - intros name value. rewrite loginRun_app. fold f. simpl.
    unfold errorShown, handleInputChange. simpl.
    destruct (login_error f) as [m|]; [|reflexivity].
    destruct (truthy m) eqn:E; [reflexivity|]. rewrite E. reflexivity.
  - intros message Hl Hm f'. subst f'. rewrite loginRun_app. fold f. simpl.
    rewrite Hl in Hlen.
    assert (E : (loginSettled f <? length (loginCalls f)) = true)
      by (apply Nat.ltb_lt; lia).
    rewrite E. unfold errorShown. simpl.
    assert (Ht : truthy message = true).
    { unfold truthy. apply negb_true_iff, bool_decide_eq_false. exact Hm. }
    rewrite Ht. auto.
Qed.

(** ** Examples *)

(** "policy.pdf" uploaded as a global document: the entry shown after the
    first status answer, which names no file, carries the dropped name. *)
Lemma global_upload_shows_dropped_name_witness :
  let evs := [ Uploaded accepted;
               Polled 1500 (okStatus processing "en cours") ] in
  let r := exec (Metadata := unit) GlobalDocumentUpload
             (Dropped "policy.pdf" 1000 :: evs) idle noPage in
  exists e,
    entryOf (makeFileId "policy.pdf" 1000) r.2 = Some e /\
    status e = processing /\ filename e = Some "policy.pdf".
Proof.
  intros evs r.
  destruct (entryOf (makeFileId "policy.pdf" 1000) r.2) as [e|] eqn:E.
  - exists e. split; [reflexivity|]. split.
    + vm_compute in E. injection E as <-. reflexivity.
    + exact (global_upload_shows_dropped_name "policy.pdf" 1000 evs noPage e E).
  - vm_compute in E. discriminate.
Defined.

(** The sample dashboard, whose current session is listed, after a
    creation, the deletion of the session that was current before, and a
    deletion that fails. *)
Lemma active_session_stays_listed_witness :
  let actions := [ CreateChat (Some (freshSession 3));
                   DeleteChat "s2" (Some tt);
                   DeleteChat "s3" None ] in
  activeListed sampleDashboard /\
  activeListed (fold_left act actions sampleDashboard).
Proof.
  intros actions.
  assert (H : activeListed sampleDashboard).
  { unfold activeListed. simpl. apply list_elem_of_here. }
  split; [exact H|].
  exact (active_session_stays_listed actions sampleDashboard H).
Defined.

(** A session created on the sample dashboard and deleted at once. *)
Lemma create_then_delete_restores_witness :
  let d' := act (act sampleDashboard (CreateChat (Some (freshSession 3))))
              (DeleteChat (session_id (freshSession 3)) (Some tt)) in
  sessions d' = sessions sampleDashboard /\ currentSession d' = None.
Proof.
  intros d'.
  destruct (create_then_delete_restores (freshSession 3) sampleDashboard)
    as (H1 & H2 & _).
  - intros s [<-|[<-|[]]]; vm_compute; discriminate.
  - split; [exact H1 | exact H2].
Defined.


(** The server reports [error] for "a.pdf" while "b.pdf", dropped later, is
    being uploaded: the entry of "a.pdf" shows [error] and stays as it is
    when the upload of "b.pdf" is rejected. *)
Lemma entry_kept_while_mounted_witness :
  let es := [ Of 0 (Uploaded accepted);
              Of 0 (Polled 1500 (okStatus error "echec"));
              Drop "b.pdf" 2000 ] in
  let h :=
    hostRun (Metadata := unit) FileUpload (Drop "a.pdf" 1000 :: es)
      (hostOf noPage) in
  let h' :=
    hostRun FileUpload [Of 1 (Uploaded (UploadRejected JsUndefined))] h in
  exists x,
    visible "a.pdf-1000" h = Some x /\ status x = error /\
    visible "a.pdf-1000" h' = Some x /\
    (status <$> visible "b.pdf-2000" h') = Some error.
Proof.
  intros es h h'.
  destruct (entry_kept_while_mounted (Metadata := unit) FileUpload [] es
              noPage "a.pdf" 1000)
    as (u & Hu & _ & Hmain).
  - reflexivity.
  - intros j v Hv. discriminate.
  - intros name now [H|[H|[H|[]]]]; try discriminate.
    injection H as <- <-. discriminate.
  - assert (Eu : u = {| home := 0;
                        closure := {| phase := Stopped;
                                      fileId := "a.pdf-1000";
                                      fileName := "a.pdf";
                                      documentId := "doc123"; attempts := 0;
                                      due := 0; fetches := 1 |} |}).
    { vm_compute in Hu. injection Hu as <-. reflexivity. }
    subst u. destruct (Hmain eq_refl) as [_ Herr].
    destruct (visible "a.pdf-1000" h) as [x|] eqn:Ev;
      [|vm_compute in Ev; discriminate].
    assert (Hst : status x = error)
      by (vm_compute in Ev; injection Ev as <-; reflexivity).
    destruct (Herr x Ev Hst) as [_ Hkeep].
    destruct (Hkeep [Of 1 (Uploaded (UploadRejected JsUndefined))])
      as [_ Hv'].
    { intros name now [H|[]]. discriminate. }
    exists x. split; [reflexivity|]. split; [exact Hst|].
    split; [exact (Hv' eq_refl)|]. reflexivity.
Defined.
